(** * OrthancForwarder: the forwarding state machine

    A shallow embedding of [orthanc_tools/orthanc_forwarder.py]: the status
    record kept per instances set, the filter / process / forward / delete
    pipeline of [handle_instances_set], the per-mode dispatch of
    [_forward_to_destination] and the retry interval table.

    Calls into the Orthanc REST client (sending, deleting, processing,
    reading series statistics) are recorded in a trace; whether such a call
    raises is decided by an oracle that sees the trace so far, so that a
    destination may fail once and succeed later. *)

From stdpp Require Import base numbers list strings gmap.

Local Open Scope string_scope.
Local Open Scope list_scope.
Local Open Scope Z_scope.

(** ** Data model *)

(** [ForwarderMode] is a [StrEnum]; [OTHER_MODE v] stands for a value that
    equals none of its six members (the dataclass does not check the field). *)
Inductive ForwarderMode : Type :=
  | DICOM
  | DICOM_SERIES_BY_SERIES
  | DICOM_WEB
  | DICOM_WEB_SERIES_BY_SERIES
  | PEERING
  | TRANSFER
  | OTHER_MODE (v : string).

Record ForwarderDestination : Type := {
  destination : string;
  forwarder_mode : ForwarderMode;
  alternate_destination : option string
}.

(** Datetimes are counted in microseconds, as Python's [datetime] does. *)
Definition datetime : Type := Z.

Definition timedelta_seconds (s : Z) : Z := s * 1000000.

Record ForwarderInstancesSetStatus : Type := {
  processed : bool;
  sent_to_destinations : list string;
  retry_count : Z;
  next_retry : option datetime
}.

(** [ForwarderInstancesSetStatus()] *)
Definition new_status : ForwarderInstancesSetStatus :=
  {| processed := false; sent_to_destinations := [];
     retry_count := 0; next_retry := None |}.

(** The [InstancesSet] of the client library: an identity and the instances
    grouped by series. *)
Record InstancesSet : Type := {
  id : string;
  by_series : list (string * list string)
}.

Definition series_ids (s : InstancesSet) : list string :=
  map fst (by_series s).

Definition instances_ids (s : InstancesSet) : list string :=
  concat (map snd (by_series s)).

Fixpoint assoc_lookup (k : string) (l : list (string * list string))
  : option (list string) :=
  match l with
  | [] => None
  | (k', v) :: l' => if String.eqb k k' then Some v else assoc_lookup k l'
  end.

(** The constructor arguments of [OrthancForwarder] that the pipeline reads.
    The filter is a predicate on instance ids ([true] keeps the instance);
    the processor is an opaque callback, named by a label. *)
Record OrthancForwarder : Type := {
  _destinations : list ForwarderDestination;
  _instance_filter : option (string -> bool);
  _instance_processor : option string
}.

(** [retry_intervals = [60, 120, 300, 1800, 3600]] *)
Definition retry_intervals : list Z := [60; 120; 300; 1800; 3600].

(** ** Exceptions, calls to the outside and the trace *)

Inductive exn : Type :=
  | TypeError
  | NotImplementedError
  | KeyError
  | IndexError
  | ExternalError.

Inductive result (A : Type) : Type :=
  | Ok (a : A)
  | Raise (e : exn).
Arguments Ok {A} a.
Arguments Raise {A} e.

Inductive Transport : Type :=
  | modalities
  | dicomweb_servers
  | peers
  | transfers.

(** One constructor per call that leaves the forwarder.  [EvSend] carries
    the client object, the target alias, the resources and the extra keyword
    arguments of the call. *)
Inductive event : Type :=
  | EvSend (via : Transport) (target : string) (resources_ids : list string)
           (kwargs : list (string * string))
  | EvSeriesGet (series_id : string)
  | EvProcessInstances (set_id : string) (processor : string)
                       (instances : list string)
  | EvDeleteFiltered (set_id : string) (instances : list string)
  | EvDelete (set_id : string) (instances : list string).

Record World : Type := {
  (** does this call, made after this trace, return without raising? *)
  call_ok : list event -> event -> bool;
  (** [series.statistics.uncompressed_size] as read after this trace *)
  uncompressed_size : list event -> string -> Z
}.

Record FState : Type := {
  _status : gmap string ForwarderInstancesSetStatus;
  trace : list event
}.

Definition with_status (m : gmap string ForwarderInstancesSetStatus)
  (st : FState) : FState :=
  {| _status := m; trace := trace st |}.

(** ** A state and exception monad

    [M S A]: a computation over a state [S] that returns an [A] or raises.
    The methods that only talk to Orthanc run over the trace ([IO]); only
    [handle_instances_set] reads and writes [self._status] ([Handler]). *)

Definition M (S A : Type) : Type := S -> result A * S.

Definition ret {S A} (a : A) : M S A := fun st => (Ok a, st).

Definition raise {S A} (e : exn) : M S A := fun st => (Raise e, st).

Definition bind {S A B} (k : A -> M S B) (m : M S A) : M S B :=
  fun st =>
    match m st with
    | (Ok a, st') => k a st'
    | (Raise e, st') => (Raise e, st')
    end.

#[global] Instance M_ret {S} : MRet (M S) := @ret S.
#[global] Instance M_bind {S} : MBind (M S) := @bind S.

(** [try: m except Exception: ...]: the outcome of [m], never raising. *)
Definition catch {S A} (m : M S A) : M S (result A) :=
  fun st => let '(r, st') := m st in (Ok r, st').

Definition lift {S A} (r : result A) : M S A := fun st => (r, st).

Definition gets {S A} (f : S -> A) : M S A := fun st => (Ok (f st), st).

Abbreviation IO := (M (list event)).
Abbreviation Handler := (M FState).

(** Run a computation on the trace inside a handler. *)
Definition io {A} (m : IO A) : Handler A :=
  fun st =>
    let '(r, tr) := m (trace st) in
    (r, {| _status := _status st; trace := tr |}).

Fixpoint for_each {S A} (l : list A) (body : A -> M S unit) : M S unit :=
  match l with
  | [] => mret tt
  | x :: l' => body x;; for_each l' body
  end.

(** ** The fragment of Python the forwarder relies on *)

(** The values compared at the retry check. *)
Inductive pyval : Type :=
  | PyNone
  | PyDatetime (t : datetime)
  | PyBuiltinMethod (name : string).

(** [a < b]: datetimes are ordered among themselves; every other pair of
    these values has no ordering and the comparison raises [TypeError]. *)
Definition py_lt (a b : pyval) : result bool :=
  match a, b with
  | PyDatetime x, PyDatetime y => Ok (x <? y)
  | _, _ => Raise TypeError
  end.

Definition py_of_optional_datetime (o : option datetime) : pyval :=
  match o with
  | Some t => PyDatetime t
  | None => PyNone
  end.

(** [l[i]]: a negative index counts from the end, an index out of range
    raises [IndexError]. *)
Definition py_getitem (l : list Z) (i : Z) : result Z :=
  let n := Z.of_nat (length l) in
  let j := if i <? 0 then i + n else i in
  if (0 <=? j) && (j <? n) then
    match l !! Z.to_nat j with
    | Some v => Ok v
    | None => Raise IndexError
    end
  else Raise IndexError.

(** [InstancesSet.get_instances_ids(self, series_id=None)] called with one
    keyword argument: any keyword other than [series_id] is a [TypeError]. *)
Definition get_instances_ids (kw : string) (s : InstancesSet)
  (series : string) : IO (list string) :=
  if String.eqb kw "series_id" then
    match assoc_lookup series (by_series s) with
    | Some ids => mret ids
    | None => raise KeyError
    end
  else raise TypeError.

(** [retry_intervals[min(retry_count, len(retry_intervals) - 1)]] *)
Definition retry_interval (retry_count : Z) : result Z :=
  py_getitem retry_intervals
    (Z.min retry_count (Z.of_nat (length retry_intervals) - 1)).

(** ** Status store accessors *)

Definition get_status (k : string) : Handler ForwarderInstancesSetStatus :=
  fun st =>
    match _status st !! k with
    | Some r => (Ok r, st)
    | None => (Raise KeyError, st)
    end.

Definition put_status (k : string) (r : ForwarderInstancesSetStatus)
  : Handler unit :=
  fun st => (Ok tt, with_status (<[k := r]> (_status st)) st).

Definition update_status (k : string)
  (f : ForwarderInstancesSetStatus -> ForwarderInstancesSetStatus)
  : Handler unit :=
  r ← get_status k; put_status k (f r).

Definition set_processed (b : bool) (r : ForwarderInstancesSetStatus) :=
  {| processed := b; sent_to_destinations := sent_to_destinations r;
     retry_count := retry_count r; next_retry := next_retry r |}.

Definition set_sent_to_destinations (l : list string)
  (r : ForwarderInstancesSetStatus) :=
  {| processed := processed r; sent_to_destinations := l;
     retry_count := retry_count r; next_retry := next_retry r |}.

Definition set_next_retry (t : option datetime)
  (r : ForwarderInstancesSetStatus) :=
  {| processed := processed r; sent_to_destinations := sent_to_destinations r;
     retry_count := retry_count r; next_retry := t |}.

Definition set_retry_count (n : Z) (r : ForwarderInstancesSetStatus) :=
  {| processed := processed r; sent_to_destinations := sent_to_destinations r;
     retry_count := n; next_retry := next_retry r |}.

(** ** The forwarder *)

Section Forwarder.

Context (w : World).

(** A call to the outside: recorded, then it returns or raises. *)
Definition call (e : event) : IO unit :=
  fun tr =>
    (if call_ok w tr e then Ok tt else Raise ExternalError, tr ++ [e]).

(** [series = self._source.series.get(s)] followed by
    [series.statistics.uncompressed_size] *)
Definition series_uncompressed_size (series : string) : IO Z :=
  call (EvSeriesGet series);;
  gets (fun tr => uncompressed_size w tr series).

Definition _forward_to_destination (instances_set : InstancesSet)
  (dest : ForwarderDestination) : IO unit :=
  match forwarder_mode dest with
  | DICOM =>
      call (EvSend modalities (destination dest)
              (instances_ids instances_set) [])
  | DICOM_SERIES_BY_SERIES =>
      for_each (series_ids instances_set) (fun s =>
        ids ← get_instances_ids "series_id" instances_set s;
        call (EvSend modalities (destination dest) ids
                [("synchronous", "True")]))
  | DICOM_WEB =>
      for_each (series_ids instances_set) (fun s =>
        ids ← get_instances_ids "series_id" instances_set s;
        call (EvSend dicomweb_servers (destination dest) ids []))
  | DICOM_WEB_SERIES_BY_SERIES =>
      for_each (series_ids instances_set) (fun s =>
        size ← series_uncompressed_size s;
        if 1 * 1024 * 1024 * 1024 <? size then
          ids ← get_instances_ids "seris_id" instances_set s;
          for_each ids (fun i =>
            call (EvSend dicomweb_servers (destination dest) [i] []))
        else
          ids ← get_instances_ids "series_id" instances_set s;
          call (EvSend dicomweb_servers (destination dest) ids []))
  | PEERING =>
      call (EvSend peers (destination dest)
              (instances_ids instances_set) [])
  | TRANSFER =>
      call (EvSend transfers (destination dest)
              (instances_ids instances_set)
              [("resource_type", "ResourceType.INSTANCE")])
  | OTHER_MODE _ => raise NotImplementedError
  end.

Definition name_in (d : string) (l : list string) : bool :=
  existsb (String.eqb d) l.

(** The loop of [forward]; [sent] is the list built so far. *)
Fixpoint forward_loop (instances_set : InstancesSet)
  (already_sent_to_destinations : list string)
  (dests : list ForwarderDestination) (sent : list string)
  : IO (list string) :=
  match dests with
  | [] => mret sent
  | dest :: rest =>
      r ← catch
            (if negb (name_in (destination dest) already_sent_to_destinations)
             then _forward_to_destination instances_set dest
             else mret tt);
      forward_loop instances_set already_sent_to_destinations rest
        (match r with
         | Ok _ => sent ++ [destination dest]
         | Raise _ => sent
         end)
  end.

Definition forward (self : OrthancForwarder) (instances_set : InstancesSet)
  (already_sent_to_destinations : list string) : IO (list string) :=
  forward_loop instances_set already_sent_to_destinations
    (_destinations self) [].

(** [InstancesSet.filter_instances]: the instances the predicate rejects
    leave the set (a series left empty leaves it too) and are returned. *)
Definition keep_instances (f : string -> bool) (s : InstancesSet)
  : InstancesSet :=
  {| id := id s;
     by_series :=
       List.filter (fun p => negb (Nat.eqb (length (snd p)) 0))
         (map (fun p => (fst p, List.filter f (snd p))) (by_series s)) |}.

Definition filtered_out (f : string -> bool) (s : InstancesSet)
  : list string :=
  List.filter (fun i => negb (f i)) (instances_ids s).

Definition filter (self : OrthancForwarder) (instances_set : InstancesSet)
  : IO InstancesSet :=
  match _instance_filter self with
  | Some f =>
      call (EvDeleteFiltered (id instances_set) (filtered_out f instances_set));;
      mret (keep_instances f instances_set)
  | None => mret instances_set
  end.

Definition process (self : OrthancForwarder) (instances_set : InstancesSet)
  : IO bool :=
  match _instance_processor self with
  | Some p =>
      r ← catch (call (EvProcessInstances (id instances_set) p
                          (instances_ids instances_set)));
      mret (match r with Ok _ => true | Raise _ => false end)
  | None => mret true
  end.

Definition delete (instances_set : InstancesSet) : IO unit :=
  call (EvDelete (id instances_set) (instances_ids instances_set)).

(** [handle_instances_set] from its [# filter] comment to the end: what runs
    once the retry check lets the call through.  [now] is the value of
    [datetime.datetime.now()] read when a retry is scheduled. *)
Definition handle_pipeline (self : OrthancForwarder) (now : datetime)
  (instances_set0 : InstancesSet) : Handler unit :=
  instances_set ← io (filter self instances_set0);
  r ← get_status (id instances_set);
  (if negb (processed r) then
     b ← io (process self instances_set);
     update_status (id instances_set) (set_processed b)
   else mret tt);;
  r ← get_status (id instances_set);
  sent_to_destinations ←
    io (forward self instances_set (sent_to_destinations r));
  if Nat.eqb (length sent_to_destinations) (length (_destinations self)) then
    io (delete instances_set)
  else
    update_status (id instances_set)
      (set_sent_to_destinations sent_to_destinations);;
    r ← get_status (id instances_set);
    let retry_count := retry_count r in
    seconds ← lift (retry_interval retry_count);
    let next_retry := now + timedelta_seconds seconds in
    update_status (id instances_set) (set_next_retry (Some next_retry));;
    update_status (id instances_set) (set_retry_count (retry_count + 1)).

(** The retry check compares [datetime.datetime.now], the method itself and
    not its result, with the stored [next_retry]. *)
Definition handle_instances_set (self : OrthancForwarder) (now : datetime)
  (instances_set : InstancesSet) : Handler unit :=
  fun st =>
    match _status st !! id instances_set with
    | None =>
        (put_status (id instances_set) new_status;;
         handle_pipeline self now instances_set) st
    | Some r =>
        (waiting ← lift (py_lt (PyBuiltinMethod "datetime.datetime.now")
                           (py_of_optional_datetime (next_retry r)));
         if waiting : bool then mret tt
         else handle_pipeline self now instances_set) st
    end.

End Forwarder.

(** ** Vocabulary of the statements *)

(** [emits P m]: whatever the trace before, [m] only appends events, and all
    of them satisfy [P]. *)
Definition emits {A} (P : event -> Prop) (m : IO A) : Prop :=
  forall tr, exists evs, (m tr).2 = tr ++ evs /\ Forall P evs.

Create HintDb emits.

(** The events of a dispatch to [dest]: sends to [dest]'s alias and reads
    of series statistics. *)
Definition dispatch_event (name : string) (e : event) : Prop :=
  match e with
  | EvSend _ target _ _ => target = name
  | EvSeriesGet _ => True
  | _ => False
  end.

Definition is_send_to (name : string) (e : event) : Prop :=
  match e with
  | EvSend _ target _ _ => target = name
  | _ => False
  end.

(** The events each step of the pipeline may add. *)
Definition filter_event (e : event) : Prop :=
  match e with EvDeleteFiltered _ _ => True | _ => False end.

Definition process_event (e : event) : Prop :=
  match e with EvProcessInstances _ _ _ => True | _ => False end.

Definition forward_event (e : event) : Prop :=
  match e with EvSend _ _ _ _ | EvSeriesGet _ => True | _ => False end.

Definition is_process_of (k : string) (e : event) : bool :=
  match e with
  | EvProcessInstances set_id _ _ => String.eqb set_id k
  | _ => false
  end.

(** How many times the processor callback was applied to the set [k]. *)
Definition applications (k : string) (tr : list event) : nat :=
  length (List.filter (is_process_of k) tr).

(** The events appended to [tr] to reach [tr']. *)
Definition new_events (tr tr' : list event) : list event :=
  drop (length tr) tr'.

Definition names (self : OrthancForwarder) : list string :=
  map destination (_destinations self).

(** The stored [sent_to_destinations] of the set [k] (empty without record)
    and its [processed] flag (false without record). *)
Definition sent_of (st : FState) (k : string) : list string :=
  match _status st !! k with
  | Some r => sent_to_destinations r
  | None => []
  end.

Definition processed_of (st : FState) (k : string) : bool :=
  match _status st !! k with
  | Some r => processed r
  | None => false
  end.

(** Of the list returned by [forward], the aliases delivered in this very
    call: those not recorded before. *)
Definition sent_this_round (already sent : list string) : list string :=
  List.filter (fun n => negb (name_in n already)) sent.

(** Lines 279-283 of [handle_instances_set] as a value: the flag stored in
    [processed] once they have run. *)
Definition process_step (w : World) (self : OrthancForwarder)
  (s : InstancesSet) (r : ForwarderInstancesSetStatus) : IO bool :=
  if processed r then mret true else process w self s.

(** How one run of the pipeline may change the record of the handled set. *)
Definition record_step (self : OrthancForwarder)
  (r r' : ForwarderInstancesSetStatus) : Prop :=
  (processed r = true -> processed r' = true) /\
  (forall d, d ∈ sent_to_destinations r -> d ∈ names self ->
             d ∈ sent_to_destinations r') /\
  (forall d, d ∈ sent_to_destinations r' ->
             d ∈ sent_to_destinations r \/ d ∈ names self) /\
  (retry_count r <= retry_count r').

(** Two destinations that differ at most in [alternate_destination]. *)
Definition same_route (d1 d2 : ForwarderDestination) : Prop :=
  destination d1 = destination d2 /\ forwarder_mode d1 = forwarder_mode d2.

Definition differ_only_in_alternate (c1 c2 : OrthancForwarder) : Prop :=
  Forall2 same_route (_destinations c1) (_destinations c2) /\
  _instance_filter c1 = _instance_filter c2 /\
  _instance_processor c1 = _instance_processor c2.

(** A sequence of calls of [handle_instances_set], each with the time at
    which it is made. *)
Fixpoint handle_all (w : World) (self : OrthancForwarder)
  (calls : list (datetime * InstancesSet)) (st : FState) : FState :=
  match calls with
  | [] => st
  | (now, s) :: rest =>
      handle_all w self rest (handle_instances_set w self now s st).2
  end.

(** ** Sample configurations and worlds *)

Definition study : InstancesSet :=
  {| id := "study-1";
     by_series := [("series-1", ["i1"; "i2"]); ("series-2", ["i3"])] |}.

Definition dest (name : string) (mode : ForwarderMode) : ForwarderDestination :=
  {| destination := name; forwarder_mode := mode;
     alternate_destination := None |}.

Definition forwarder (dests : list ForwarderDestination) : OrthancForwarder :=
  {| _destinations := dests; _instance_filter := None;
     _instance_processor := Some "anonymize" |}.

Definition initial : FState := {| _status := ∅; trace := [] |}.

Definition all_ok : World :=
  {| call_ok := fun _ _ => true; uncompressed_size := fun _ _ => 0 |}.

(** The processor callback raises; everything else succeeds. *)
Definition processor_fails : World :=
  {| call_ok := fun _ e =>
       match e with EvProcessInstances _ _ _ => false | _ => true end;
     uncompressed_size := fun _ _ => 0 |}.

Definition targets (name : string) (e : event) : bool :=
  match e with
  | EvSend _ target _ _ => String.eqb target name
  | _ => false
  end.

(** Sending to ["B"] raises the first time and succeeds afterwards. *)
Definition b_fails_once : World :=
  {| call_ok := fun tr e =>
       if targets "B" e then existsb (targets "B") tr else true;
     uncompressed_size := fun _ _ => 0 |}.

(** Sending to a peer raises; DICOM sends succeed. *)
Definition peers_down : World :=
  {| call_ok := fun _ e =>
       match e with EvSend peers _ _ _ => false | _ => true end;
     uncompressed_size := fun _ _ => 0 |}.

(** ["series-1"] holds 2 GiB, every other series 10 bytes. *)
Definition big_series : World :=
  {| call_ok := fun _ _ => true;
     uncompressed_size := fun _ s =>
       if String.eqb s "series-1" then 2 * 1024 * 1024 * 1024 else 10 |}.

(** ** Startup: [wait_orthanc_started]

    The probes of [self._source.is_alive()] are answered by a function of
    their rank; [get_system()] answers with the entry ["OverwriteInstances"]
    of the system dictionary, if it has one.  The [while] loop may not end,
    so it runs on fuel, one unit per probe. *)

Inductive startup_event : Type :=
  | EvIsAlive
  | EvSleep (seconds : Z)
  | EvGetSystem.

Inductive startup_error : Type :=
  | CouldNotConnect
  | InvalidConfiguration.

Record Source : Type := {
  is_alive : nat -> bool;
  overwrite_instances : option bool
}.

Record StartupSettings : Type := {
  _max_retry_count_at_startup : Z;
  _polling_interval_in_seconds : Z
}.

(** The [while not self._source.is_alive()] loop; [probe] is the rank of the
    next probe, [retry] the local counter. *)
Fixpoint wait_loop (fuel : nat) (src : Source) (cfg : StartupSettings)
  (probe : nat) (retry : Z) (tr : list startup_event)
  : option (option startup_error * list startup_event) :=
  match fuel with
  | O => None
  | S fuel' =>
      if is_alive src probe then Some (None, tr ++ [EvIsAlive])
      else
        let retry := retry + 1 in
        if retry =? _max_retry_count_at_startup cfg then
          Some (Some CouldNotConnect, tr ++ [EvIsAlive])
        else
          wait_loop fuel' src cfg (S probe) retry
            (tr ++ [EvIsAlive; EvSleep (_polling_interval_in_seconds cfg)])
  end.

(** The check of the configuration that follows the loop. *)
Definition check_system (src : Source) (self : OrthancForwarder)
  : option startup_error :=
  match overwrite_instances src with
  | None => None
  | Some true => None
  | Some false =>
      match _instance_processor self with
      | Some _ => Some InvalidConfiguration
      | None => None
      end
  end.

Definition wait_orthanc_started (fuel : nat) (src : Source)
  (cfg : StartupSettings) (self : OrthancForwarder)
  : option (option startup_error * list startup_event) :=
  match wait_loop fuel src cfg 0 0 [] with
  | None => None
  | Some (Some e, tr) => Some (Some e, tr)
  | Some (None, tr) => Some (check_system src self, tr ++ [EvGetSystem])
  end.

(** [n] failed probes, each followed by a sleep. *)
Definition failed_probes (cfg : StartupSettings) (n : nat)
  : list startup_event :=
  concat (replicate n [EvIsAlive; EvSleep (_polling_interval_in_seconds cfg)]).

(** ** More vocabulary *)

(** The single call of the modes that send the whole set at once. *)
Definition whole_set_send (s : InstancesSet) (d : ForwarderDestination)
  : option event :=
  match forwarder_mode d with
  | DICOM => Some (EvSend modalities (destination d) (instances_ids s) [])
  | PEERING => Some (EvSend peers (destination d) (instances_ids s) [])
  | TRANSFER =>
      Some (EvSend transfers (destination d) (instances_ids s)
              [("resource_type", "ResourceType.INSTANCE")])
  | _ => None
  end.



(** A destination to which this set cannot be delivered, whatever was
    called before. *)
Definition never_delivers (w : World) (s : InstancesSet)
  (d : ForwarderDestination) : Prop :=
  forall tr, (_forward_to_destination w s d tr).1 <> Ok tt.

Definition is_delete_of (k : string) (e : event) : bool :=
  match e with
  | EvDelete set_id _ => String.eqb set_id k
  | _ => false
  end.

(** How many times the deletion of the set [k] was requested. *)
Definition deletions (k : string) (tr : list event) : nat :=
  length (List.filter (is_delete_of k) tr).

(** What every stored record satisfies. *)
Definition record_inv (self : OrthancForwarder)
  (r : ForwarderInstancesSetStatus) : Prop :=
  0 <= retry_count r /\
  (retry_count r = 0 <-> next_retry r = None) /\
  sublist (sent_to_destinations r) (names self) /\
  (0 < retry_count r ->
   (length (sent_to_destinations r) < length (_destinations self))%nat).

Definition status_inv (self : OrthancForwarder) (st : FState) : Prop :=
  forall k r, _status st !! k = Some r -> record_inv self r.

(** ** The HL7 worklist parser: [Hl7WorklistParser.parse]

    What [parse] does with the dictionary returned by the parser it
    inherits from.  That dictionary ([values_from_hl7], field name to string
    or [None]) and the OBX segments of the message are inputs here, as is
    [str.upper]; a [str] is the list of its code points. *)

Module Hl7.

Definition pystr : Type := list N.

(** A literal of the source, character by character. *)
Definition lit (s : string) : pystr :=
  map (fun a => N.of_nat (Ascii.nat_of_ascii a))
    (String.list_ascii_of_string s).

Inductive pyv : Type :=
  | VNone
  | VStr (s : pystr)
  | VInt (n : Z).

#[global] Instance pyv_eq_dec : EqDecision pyv.
Proof. solve_decision. Defined.

Inductive error : Type :=
  | KeyError (key : string)
  | AttributeError
  | TypeError.

Definition of_hl7 (o : option pystr) : pyv :=
  match o with
  | Some s => VStr s
  | None => VNone
  end.

(** [s.split(sep)] for a separator of one character *)
Fixpoint split (sep : N) (s : pystr) : list pystr :=
  match s with
  | [] => [[]]
  | c :: s' =>
      if decide (c = sep) then [] :: split sep s'
      else
        match split sep s' with
        | p :: ps => (c :: p) :: ps
        | [] => [[c]]
        end
  end.

(** [sep.join(l)] *)
Fixpoint join (sep : pystr) (l : list pystr) : pystr :=
  match l with
  | [] => []
  | [p] => p
  | p :: ps => p ++ sep ++ join sep ps
  end.

Fixpoint starts_with (pat s : pystr) : bool :=
  match pat, s with
  | [], _ => true
  | _ :: _, [] => false
  | a :: pat', b :: s' => bool_decide (a = b) && starts_with pat' s'
  end.

(** [pat in s] for strings *)
Fixpoint contains (pat s : pystr) : bool :=
  starts_with pat s ||
  match s with
  | [] => false
  | _ :: s' => contains pat s'
  end.

(** [values.get(k)] *)
Definition get (values : gmap string pyv) (k : string) : pyv :=
  match values !! k with
  | Some v => v
  | None => VNone
  end.

(** The defaults set before the message is read. *)
Definition defaults : gmap string pyv :=
  <["RequestedProcedureID" := VStr (lit "UNKNOWN")]>
  (<["ScheduledProcedureStepID" := VStr (lit "UNKNOWN")]>
  (<["ScheduledStationName" := VNone]>
  (<["ScheduledPerformingPhysicianName" := VNone]>
  (<["ScheduledStationAETitle" := VStr (lit "UNKNOWN")]>
  (<["ReferringPhysicianName" := VNone]>
  (<["Modality" := VNone]>
  (<["RequestedProcedureDescription" := VNone]>
  (<["RequestingPhysician" := VNone]>
  (<["AccessionNumber" := VNone]> ∅))))))))).

(** [values['PatientName'] = '^'.join(values['PatientName'].split('^')[:5])] *)
Definition truncate_name (name : pystr) : pystr :=
  join (lit "^") (take 5 (split 94 name)).

Definition set_patient_name (values : gmap string pyv)
  : error + gmap string pyv :=
  match values !! "PatientName" with
  | None => inl (KeyError "PatientName")
  | Some (VStr name) =>
      inr (<["PatientName" := VStr (truncate_name name)]> values)
  | Some _ => inl AttributeError
  end.

Definition set_patient_sex (values : gmap string pyv)
  : error + gmap string pyv :=
  match values !! "_sex" with
  | None => inl (KeyError "_sex")
  | Some sex =>
      if bool_decide (sex = VNone) || bool_decide (sex = VStr (lit "M"))
         || bool_decide (sex = VStr (lit "F"))
      then inr (<["PatientSex" := sex]> values)
      else if bool_decide (sex = VStr (lit "U"))
      then inr (<["PatientSex" := VNone]> values)
      else if bool_decide (sex = VStr (lit "A"))
              || bool_decide (sex = VStr (lit "N"))
      then inr (<["PatientSex" := VStr (lit "O")]> values)
      else inr values
  end.

Definition set_pregnancy_status (values : gmap string pyv)
  : error + gmap string pyv :=
  match get values "_ambulatoryStatus" with
  | VNone => inr values
  | VStr status =>
      if contains (lit "B6") status
      then inr (<["PregnancyStatus" := VInt 3]> values)
      else inr values
  | VInt _ => inl TypeError
  end.

(** One OBX segment, given its fields [OBX.F3] and [OBX.F5]. *)
Definition read_observation (upper : pystr -> pystr)
  (values : gmap string pyv) (segment : pystr * pystr) : gmap string pyv :=
  let observation := segment.1 in
  let values :=
    if contains (lit "BODY WEIGHT") (upper observation)
    then <["PatientWeight" := VStr segment.2]> values else values in
  if contains (lit "BODY HEIGHT") (upper observation)
  then <["PatientHeight" := VStr segment.2]> values else values.

(** The OBX loop; [None] stands for a message without OBX segment, whose
    [KeyError] is suppressed. *)
Definition read_observations (upper : pystr -> pystr)
  (obx : option (list (pystr * pystr))) (values : gmap string pyv)
  : gmap string pyv :=
  match obx with
  | Some segments => foldl (read_observation upper) values segments
  | None => values
  end.

Definition set_character_set (values : gmap string pyv) : gmap string pyv :=
  let encoding := get values "_encoding" in
  if bool_decide (encoding = VNone)
     || bool_decide (encoding = VStr (lit "8859/1"))
     || bool_decide (encoding = VStr (lit "8859/15"))
  then <["SpecificCharacterSet" := VStr (lit "ISO_IR 100")]> values
  else values.

Definition set_start_date_time (values : gmap string pyv)
  : error + gmap string pyv :=
  match get values "_scheduledProcedureStepStartDateTime" with
  | VNone => inr values
  | VStr datetimeString =>
      let values :=
        <["ScheduledProcedureStepStartDate" := VStr (take 8 datetimeString)]>
          values in
      if Nat.eqb (length datetimeString) 12 then
        inr (<["ScheduledProcedureStepStartTime" :=
                 VStr (drop 8 (take 12 datetimeString) ++ lit "00")]> values)
      else if Nat.eqb (length datetimeString) 14 then
        inr (<["ScheduledProcedureStepStartTime" :=
                 VStr (drop 8 (take 14 datetimeString))]> values)
      else inr values
  | VInt _ => inl TypeError
  end.

Definition set_requesting_physician (values : gmap string pyv)
  : gmap string pyv :=
  if negb (bool_decide (get values "_requestingPhysicianOBR" = VNone)) then
    <["RequestingPhysician" := get values "_requestingPhysicianOBR"]> values
  else if negb (bool_decide (get values "_requestingPhysicianORC" = VNone))
  then
    <["RequestingPhysician" := get values "_requestingPhysicianORC"]> values
  else values.

(** [x <- m; k] on the outcome of a step *)
Definition and_then {A B} (m : error + A) (k : A -> error + B) : error + B :=
  match m with
  | inl e => inl e
  | inr a => k a
  end.

Definition parse (upper : pystr -> pystr)
  (values_from_hl7 : gmap string (option pystr))
  (obx : option (list (pystr * pystr))) : error + gmap string pyv :=
  let values := (of_hl7 <$> values_from_hl7) ∪ defaults in
  and_then (set_patient_name values) (fun values =>
  and_then (set_patient_sex values) (fun values =>
  and_then (set_pregnancy_status values) (fun values =>
  let values := read_observations upper obx values in
  let values := set_character_set values in
  and_then (set_start_date_time values) (fun values =>
  inr (set_requesting_physician values))))).

End Hl7.

(** * Properties *)

(** ** Running the monad *)

Lemma run_bind {S A B} (m : M S A) (k : A -> M S B) (st : S) :
  (m ≫= k) st =
  match m st with
  | (Ok a, st') => k a st'
  | (Raise e, st') => (Raise e, st')
  end.
Proof. reflexivity. Qed.

Lemma run_bind_ok {S A B} (m : M S A) (k : A -> M S B) st a st' :
  m st = (Ok a, st') -> (m ≫= k) st = k a st'.
Proof. intros H. rewrite run_bind, H. reflexivity. Qed.

Lemma run_bind_raise {S A B} (m : M S A) (k : A -> M S B) st e st' :
  m st = (Raise e, st') -> (m ≫= k) st = (Raise e, st').
Proof. intros H. rewrite run_bind, H. reflexivity. Qed.

Lemma run_ret {S A} (a : A) (st : S) : (mret a : M S A) st = (Ok a, st).
Proof. reflexivity. Qed.

Lemma run_io {A} (m : IO A) st r tr :
  m (trace st) = (r, tr) -> io m st = (r, {| _status := _status st; trace := tr |}).
Proof. intros H. unfold io. rewrite H. reflexivity. Qed.

(** ** What a computation adds to the trace *)

Lemma emits_ret {A} P (a : A) : emits P (mret a).
Proof. intros tr. exists []. simpl. rewrite app_nil_r. auto. Qed.

Lemma emits_raise {A} P e : emits P (raise e : IO A).
Proof. intros tr. exists []. simpl. rewrite app_nil_r. auto. Qed.

Lemma emits_lift {A} P (r : result A) : emits P (lift r).
Proof. intros tr. exists []. simpl. rewrite app_nil_r. auto. Qed.

Lemma emits_gets {A} P (f : list event -> A) : emits P (gets f).
Proof. intros tr. exists []. simpl. rewrite app_nil_r. auto. Qed.

Lemma emits_bind {A B} P (m : IO A) (k : A -> IO B) :
  emits P m -> (forall a, emits P (k a)) -> emits P (m ≫= k).
Proof.
  intros Hm Hk tr. rewrite run_bind.
  destruct (Hm tr) as (e1 & E1 & F1).
  destruct (m tr) as [[a|e] tr1]; simpl in E1; subst tr1.
  - destruct (Hk a (tr ++ e1)) as (e2 & E2 & F2).
    exists (e1 ++ e2). rewrite E2, app_assoc. split; [done|].
    apply Forall_app; auto.
  - exists e1. auto.
Qed.

Lemma emits_catch {A} P (m : IO A) : emits P m -> emits P (catch m).
Proof.
  intros Hm tr. destruct (Hm tr) as (e1 & E1 & F1).
  unfold catch. destruct (m tr) as [r tr1]. exists e1. auto.
Qed.

Lemma emits_for_each {A} P (l : list A) (body : A -> IO unit) :
  (forall x, emits P (body x)) -> emits P (for_each l body).
Proof.
  intros Hb. induction l as [|x l IH]; simpl.
  - apply emits_ret.
  - apply emits_bind; auto.
Qed.

Lemma emits_if {A} P (b : bool) (m1 m2 : IO A) :
  emits P m1 -> emits P m2 -> emits P (if b then m1 else m2).
Proof. destruct b; auto. Qed.

Lemma emits_get_instances_ids P kw s series :
  emits P (get_instances_ids kw s series).
Proof.
  unfold get_instances_ids.
  destruct (String.eqb kw "series_id"); [|apply emits_raise].
  destruct (assoc_lookup series (by_series s));
    [apply emits_ret | apply emits_raise].
Qed.

Lemma emits_call w (P : event -> Prop) e : P e -> emits P (call w e).
Proof. intros H tr. exists [e]. simpl. auto. Qed.

#[global] Hint Resolve emits_ret emits_raise emits_lift emits_gets emits_bind
  emits_catch emits_for_each emits_if emits_get_instances_ids emits_call
  : emits.

Lemma emits_mono {A} (P Q : event -> Prop) (m : IO A) :
  (forall e, P e -> Q e) -> emits P m -> emits Q m.
Proof.
  intros HPQ Hm tr. destruct (Hm tr) as (evs & E & F).
  exists evs. split; [done|]. eapply Forall_impl; eauto.
Qed.

Lemma emits_forward_to_destination w s dest :
  emits (dispatch_event (destination dest)) (_forward_to_destination w s dest).
Proof.
  unfold _forward_to_destination, series_uncompressed_size.
  destruct (forwarder_mode dest);
    repeat first
      [ apply emits_call; simpl; done
      | apply emits_get_instances_ids
      | apply emits_for_each; intros
      | apply emits_bind; intros
      | apply emits_if
      | apply emits_gets
      | apply emits_raise ].
Qed.

Lemma name_in_spec d l : name_in d l = true <-> d ∈ l.
Proof.
  unfold name_in. rewrite existsb_exists. split.
  - intros (x & Hx & E). apply String.eqb_eq in E. subst.
    by apply list_elem_of_In.
  - intros H. exists d. split; [by apply list_elem_of_In|apply String.eqb_refl].
Qed.

(** ** The forward step *)

Lemma forward_loop_run w s already dests : forall sent tr,
  exists names tr',
    forward_loop w s already dests sent tr = (Ok (sent ++ names), tr') /\
    sublist names (map destination dests) /\
    (forall d, d ∈ dests -> destination d ∈ already -> destination d ∈ names).
Proof.
  induction dests as [|dest rest IH]; intros sent tr.
  - exists [], tr. simpl. rewrite app_nil_r. split; [done|].
    split; [constructor|]. intros d Hd. by apply elem_of_nil in Hd.
  - simpl. rewrite run_bind. unfold catch at 1.
    destruct (name_in (destination dest) already) eqn:Hin; simpl.
    + destruct (IH (sent ++ [destination dest]) tr) as (names & tr' & E & Hs & Hc).
      exists (destination dest :: names), tr'.
      rewrite E, <- app_assoc. split; [done|].
      split; [by constructor|].
      intros d Hd Ha. apply elem_of_cons in Hd as [->|Hd].
      * apply elem_of_cons; auto.
      * apply elem_of_cons; right; auto.
    + destruct (_forward_to_destination w s dest tr) as [[[]|e] tr1].
      * destruct (IH (sent ++ [destination dest]) tr1)
          as (names & tr' & E & Hs & Hc).
        exists (destination dest :: names), tr'.
        rewrite E, <- app_assoc. split; [done|].
        split; [by constructor|].
        intros d Hd Ha. apply elem_of_cons in Hd as [->|Hd].
        -- apply elem_of_cons; auto.
        -- apply elem_of_cons; right; auto.
      * destruct (IH sent tr1) as (names & tr' & E & Hs & Hc).
        exists names, tr'. split; [done|].
        split; [by constructor|].
        intros d Hd Ha. apply elem_of_cons in Hd as [->|Hd]; [|auto].
        apply name_in_spec in Ha. congruence.
Qed.

(** [forward] never raises, and what it returns is a sublist of the
    configured aliases that keeps every alias already recorded. *)
Lemma forward_run w self s already tr :
  exists sent tr',
    forward w self s already tr = (Ok sent, tr') /\
    sublist sent (map destination (_destinations self)) /\
    (forall d, d ∈ _destinations self ->
               destination d ∈ already -> destination d ∈ sent).
Proof.
  unfold forward.
  destruct (forward_loop_run w s already (_destinations self) [] tr)
    as (names & tr' & E & Hs & Hc).
  exists names, tr'. auto.
Qed.

Lemma emits_forward_loop w (P : event -> Prop) s already dests :
  (forall dest, dest ∈ dests -> destination dest ∉ already ->
                forall e, dispatch_event (destination dest) e -> P e) ->
  forall sent, emits P (forward_loop w s already dests sent).
Proof.
  induction dests as [|dest rest IH]; intros HP sent; simpl.
  - apply emits_ret.
  - apply emits_bind.
    + apply emits_catch.
      destruct (name_in (destination dest) already) eqn:Hin; simpl.
      * apply emits_ret.
      * eapply emits_mono; [|apply emits_forward_to_destination].
        apply HP; [by left|].
        rewrite <- name_in_spec. congruence.
    + intros r. apply IH. intros d Hd. apply HP. by right.
Qed.

(** ** The pipeline, step by step *)

Lemma filter_id w self s tr s' tr' :
  filter w self s tr = (Ok s', tr') -> id s' = id s.
Proof.
  unfold filter. destruct (_instance_filter self) as [f|].
  - rewrite run_bind. destruct (call w _ tr) as [[[]|e] tr1]; [|done].
    rewrite run_ret. by intros [= <- _].
  - rewrite run_ret. by intros [= <- _].
Qed.

Lemma process_never_raises w self s tr :
  exists b tr', process w self s tr = (Ok b, tr').
Proof.
  unfold process. destruct (_instance_processor self) as [p|].
  - rewrite run_bind. unfold catch.
    destruct (call w _ tr) as [r tr1]. rewrite run_ret. eauto.
  - rewrite run_ret. eauto.
Qed.

Lemma set_processed_same r : set_processed (processed r) r = r.
Proof. by destruct r. Qed.

Lemma run_get_status k st r :
  _status st !! k = Some r -> get_status k st = (Ok r, st).
Proof. intros H. unfold get_status. by rewrite H. Qed.

Lemma run_update_status k f m tr r :
  m !! k = Some r ->
  update_status k f {| _status := m; trace := tr |} =
  (Ok tt, {| _status := <[k := f r]> m; trace := tr |}).
Proof.
  intros H. unfold update_status.
  erewrite run_bind_ok; [|by apply run_get_status]. reflexivity.
Qed.

Lemma handle_pipeline_filter_raises w self now s0 st e tr1 :
  filter w self s0 (trace st) = (Raise e, tr1) ->
  handle_pipeline w self now s0 st =
  (Raise e, {| _status := _status st; trace := tr1 |}).
Proof.
  intros Hf. unfold handle_pipeline.
  erewrite run_bind_raise; [done|]. by apply run_io.
Qed.

(** The whole pipeline in terms of its three steps on the trace. *)
Lemma handle_pipeline_run w self now s0 st r s tr1 b tr2 sent tr3 :
  _status st !! id s0 = Some r ->
  filter w self s0 (trace st) = (Ok s, tr1) ->
  process_step w self s r tr1 = (Ok b, tr2) ->
  forward w self s (sent_to_destinations r) tr2 = (Ok sent, tr3) ->
  handle_pipeline w self now s0 st =
  if Nat.eqb (length sent) (length (_destinations self)) then
    ((delete w s tr3).1,
     {| _status := <[id s0 := set_processed b r]> (_status st);
        trace := (delete w s tr3).2 |})
  else
    match retry_interval (retry_count r) with
    | Ok seconds =>
        (Ok tt,
         {| _status :=
              <[id s0 := {| processed := b; sent_to_destinations := sent;
                            retry_count := retry_count r + 1;
                            next_retry :=
                              Some (now + timedelta_seconds seconds) |}]>
                (_status st);
            trace := tr3 |})
    | Raise e =>
        (Raise e,
         {| _status :=
              <[id s0 := {| processed := b; sent_to_destinations := sent;
                            retry_count := retry_count r;
                            next_retry := next_retry r |}]> (_status st);
            trace := tr3 |})
    end.
Proof.
  intros Hr Hf Hp Hfw. pose proof (filter_id _ _ _ _ _ _ Hf) as Hid.
  unfold process_step in Hp. unfold handle_pipeline.
  erewrite run_bind_ok; [|by apply run_io].
  rewrite Hid.
  erewrite run_bind_ok; [|by apply run_get_status].
  assert (Hstep :
    (if negb (processed r)
     then io (process w self s) ≫= λ b0, update_status (id s0) (set_processed b0)
     else mret ()) {| _status := _status st; trace := tr1 |}
    = (Ok tt, {| _status := <[id s0 := set_processed b r]> (_status st);
                 trace := tr2 |})).
  { destruct (processed r) eqn:Hpr; simpl.
    - rewrite run_ret in Hp. injection Hp as <- <-.
      rewrite run_ret. f_equal. f_equal.
      rewrite <- Hpr, set_processed_same. symmetry. by apply insert_id.
    - erewrite run_bind_ok; [|by apply run_io]. simpl.
      by apply run_update_status. }
  erewrite run_bind_ok; [|exact Hstep].
  erewrite run_bind_ok;
    [|apply run_get_status; simpl; apply lookup_insert_eq].
  erewrite run_bind_ok; [|by apply run_io].
  simpl.
  destruct (Nat.eqb (length sent) (length (_destinations self))).
  - unfold io. simpl. by destruct (delete w s tr3).
  - erewrite run_bind_ok;
      [|apply run_update_status; apply lookup_insert_eq].
    erewrite run_bind_ok;
      [|apply run_get_status; simpl; apply lookup_insert_eq].
    simpl. rewrite run_bind. unfold lift at 1.
    destruct (retry_interval (retry_count r)) as [seconds|e].
    + erewrite run_bind_ok;
        [|apply run_update_status; apply lookup_insert_eq].
      erewrite run_update_status; [|apply lookup_insert_eq].
      simpl. by rewrite !insert_insert_eq.
    + by rewrite !insert_insert_eq.
Qed.

(** The pipeline adds one event after the forward step, the deletion, and
    only when [forward] returned as many aliases as destinations. *)
Lemma handle_pipeline_last_events w self now s0 st r s tr1 b tr2 sent tr3 :
  _status st !! id s0 = Some r ->
  filter w self s0 (trace st) = (Ok s, tr1) ->
  process_step w self s r tr1 = (Ok b, tr2) ->
  forward w self s (sent_to_destinations r) tr2 = (Ok sent, tr3) ->
  trace (handle_pipeline w self now s0 st).2 =
  tr3 ++ (if Nat.eqb (length sent) (length (_destinations self))
          then [EvDelete (id s) (instances_ids s)] else []).
Proof.
  intros Hr Hf Hp Hfw.
  rewrite (handle_pipeline_run _ _ now _ _ _ _ _ _ _ _ _ Hr Hf Hp Hfw).
  destruct (Nat.eqb (length sent) (length (_destinations self))); [done|].
  rewrite app_nil_r. by destruct (retry_interval (retry_count r)).
Qed.

(** A set seen for the first time gets a fresh record and goes through
    the pipeline. *)
Lemma handle_instances_set_first_sight w self now s st :
  _status st !! id s = None ->
  handle_instances_set w self now s st =
  handle_pipeline w self now s
    {| _status := <[id s := new_status]> (_status st); trace := trace st |}.
Proof. intros H. unfold handle_instances_set. by rewrite H. Qed.

(** A set that already has a record stops at the retry check: the
    comparison raises whatever [next_retry] holds. *)
Lemma handle_instances_set_known w self now s st r :
  _status st !! id s = Some r ->
  handle_instances_set w self now s st = (Raise TypeError, st).
Proof.
  intros H. unfold handle_instances_set. rewrite H.
  rewrite run_bind. unfold lift. by destruct (next_retry r).
Qed.

(** ** The retry interval table *)

Lemma retry_interval_from_last n :
  Z.of_nat (length retry_intervals) - 1 <= n -> retry_interval n = Ok 3600.
Proof.
  intros H. unfold retry_interval. simpl in *.
  rewrite Z.min_r by lia. reflexivity.
Qed.

Lemma retry_interval_cases n :
  0 <= n ->
  (n = 0 /\ retry_interval n = Ok 60) \/
  (n = 1 /\ retry_interval n = Ok 120) \/
  (n = 2 /\ retry_interval n = Ok 300) \/
  (n = 3 /\ retry_interval n = Ok 1800) \/
  (4 <= n /\ retry_interval n = Ok 3600).
Proof.
  intros H.
  assert (n = 0 \/ n = 1 \/ n = 2 \/ n = 3 \/ 4 <= n) as C by lia.
  destruct C as [->|[->|[->|[->|C]]]]; auto 10.
  right; right; right; right. split; [done|].
  apply retry_interval_from_last. simpl. lia.
Qed.

(** C9. The retry delay, [retry_intervals[min(retry_count, len - 1)]], is
    defined for every non-negative retry count, never exceeds the last entry
    of the table, equals that last entry from retry count [len - 1] on, and
    does not decrease when the retry count grows. *)
Theorem retry_interval_total_monotone_bounded (n : Z) :
  0 <= n ->
  exists d,
    retry_interval n = Ok d /\
    last retry_intervals = Some 3600 /\
    d <= 3600 /\
    (Z.of_nat (length retry_intervals) - 1 <= n -> d = 3600) /\
    (forall m, n <= m -> exists d', retry_interval m = Ok d' /\ d <= d').
Proof.
  intros Hn.
  destruct (retry_interval_cases n Hn)
    as [[E R]|[[E R]|[[E R]|[[E R]|[E R]]]]];
    rewrite R; eexists; (split; [reflexivity|]);
    (split; [reflexivity|]); (split; [lia|]);
    (split; [simpl; lia|]);
    intros m Hm;
    (assert (0 <= m) as H0 by lia);
    destruct (retry_interval_cases m H0)
      as [[E' R']|[[E' R']|[[E' R']|[[E' R']|[E' R']]]]];
    rewrite R'; eexists; (split; [reflexivity|]); lia.
Qed.

Lemma retry_interval_total_monotone_bounded_witness :
  exists d,
    retry_interval 7 = Ok d /\
    last retry_intervals = Some 3600 /\
    d <= 3600 /\
    (Z.of_nat (length retry_intervals) - 1 <= 7 -> d = 3600) /\
    (forall m, 7 <= m -> exists d', retry_interval m = Ok d' /\ d <= d').
Proof. apply (retry_interval_total_monotone_bounded 7). lia. Defined.

(** ** The retry check *)

(** C2. A second call for a set whose retry is scheduled in the future: the
    call made one second after a failed forward does not return, it raises
    [TypeError]; nothing is sent and the state is left as it was. *)
Theorem retry_check_raises_type_error :
  let self := forwarder [dest "A" DICOM; dest "B" PEERING] in
  let st1 := (handle_instances_set b_fails_once self 0 study initial).2 in
  _status st1 !! "study-1" =
    Some {| processed := true; sent_to_destinations := ["A"];
            retry_count := 1; next_retry := Some 60000000 |} /\
  handle_instances_set b_fails_once self 1000000 study st1
    = (Raise TypeError, st1).
Proof.
  split; [vm_compute; reflexivity|].
  eapply handle_instances_set_known. vm_compute. reflexivity.
Qed.

(** ** Dispatch by mode *)

Lemma oversized_series_raises w s d series ids rest tr :
  forwarder_mode d = DICOM_WEB_SERIES_BY_SERIES ->
  by_series s = (series, ids) :: rest ->
  call_ok w tr (EvSeriesGet series) = true ->
  1 * 1024 * 1024 * 1024 < uncompressed_size w (tr ++ [EvSeriesGet series]) series ->
  _forward_to_destination w s d tr = (Raise TypeError, tr ++ [EvSeriesGet series]).
Proof.
  intros Hm Hs Hc Hsize. unfold _forward_to_destination, series_ids.
  rewrite Hm, Hs. apply Z.ltb_lt in Hsize.
  simpl in *. unfold series_uncompressed_size, mbind, M_bind, bind, call, gets.
  rewrite Hc. simpl. rewrite Hsize. reflexivity.
Qed.

(** C8. A study whose first series holds 2 GiB, sent in the mode
    [DICOM_WEB_SERIES_BY_SERIES]: the dispatch reads the statistics of that
    series and raises [TypeError] (the keyword [seris_id]); no instance is
    sent, neither one by one nor as a whole, and the second series, which is
    small, is not reached.  With small series only, each series is sent in
    one call. *)
Theorem oversized_series_is_not_sent :
  _forward_to_destination big_series study
      (dest "W" DICOM_WEB_SERIES_BY_SERIES) []
    = (Raise TypeError, [EvSeriesGet "series-1"]) /\
  _forward_to_destination all_ok study
      (dest "W" DICOM_WEB_SERIES_BY_SERIES) []
    = (Ok tt, [EvSeriesGet "series-1";
               EvSend dicomweb_servers "W" ["i1"; "i2"] [];
               EvSeriesGet "series-2";
               EvSend dicomweb_servers "W" ["i3"] []]).
Proof. split; reflexivity. Qed.

(** ** Destinations already recorded *)

Lemma new_events_app (tr evs : list event) : new_events tr (tr ++ evs) = evs.
Proof. unfold new_events. apply drop_app_length. Qed.

(** C7. A destination whose alias is in the list of already sent
    destinations given to [forward] gets no send call during that call of
    [forward], and, being configured, its alias is in the list [forward]
    returns, the list whose length decides between deletion and retry. *)
Theorem already_sent_destination_is_skipped_and_counted
  w self s (already : list string) (d : string) tr :
  d ∈ already ->
  (forall e, e ∈ new_events tr (forward w self s already tr).2 ->
             ~ is_send_to d e) /\
  (d ∈ names self ->
   exists sent, (forward w self s already tr).1 = Ok sent /\ d ∈ sent).
Proof.
  intros Hd. split.
  - assert (emits (fun e => ~ is_send_to d e) (forward w self s already))
      as Hem.
    { unfold forward. apply emits_forward_loop.
      intros dd _ Hnot e He Hsend. destruct e; simpl in *; try done.
      congruence. }
    destruct (Hem tr) as (evs & E & F). rewrite E, new_events_app.
    intros e He. rewrite Forall_forall in F. auto.
  - intros Hn. unfold names in Hn.
    apply list_elem_of_fmap in Hn as (dd & -> & Hdd).
    destruct (forward_run w self s already tr) as (sent & tr' & E & _ & Hc).
    exists sent. rewrite E. split; [done|]. auto.
Qed.

Lemma already_sent_destination_is_skipped_and_counted_witness :
  let self := forwarder [dest "A" DICOM; dest "B" PEERING] in
  let run := forward b_fails_once self study ["A"] [] in
  (forall e, e ∈ new_events [] run.2 -> ~ is_send_to "A" e) /\
  (exists sent, run.1 = Ok sent /\ "A" ∈ sent).
Proof.
  intros self run.
  destruct (already_sent_destination_is_skipped_and_counted
              b_fails_once self study ["A"] "A" []) as [H1 H2].
  - apply list_elem_of_here.
  - split; [exact H1|]. apply H2. vm_compute. apply list_elem_of_here.
Defined.

(** ** The alternate destination *)

Lemma bind_ext {S A B} (m : M S A) (k1 k2 : A -> M S B) st :
  (forall a st', k1 a st' = k2 a st') -> (m ≫= k1) st = (m ≫= k2) st.
Proof. intros H. rewrite !run_bind. destruct (m st) as [[a|e] st']; auto. Qed.

Lemma io_ext {A} (m1 m2 : IO A) st :
  (forall tr, m1 tr = m2 tr) -> io m1 st = io m2 st.
Proof. intros H. unfold io. by rewrite H. Qed.

Lemma forward_to_destination_same_route w s d1 d2 tr :
  same_route d1 d2 ->
  _forward_to_destination w s d1 tr = _forward_to_destination w s d2 tr.
Proof.
  destruct d1 as [n1 m1 a1], d2 as [n2 m2 a2].
  unfold same_route, _forward_to_destination. simpl.
  intros [-> ->]. reflexivity.
Qed.

Lemma forward_loop_same_route w s already dests1 dests2 :
  Forall2 same_route dests1 dests2 ->
  forall sent tr,
    forward_loop w s already dests1 sent tr =
    forward_loop w s already dests2 sent tr.
Proof.
  induction 1 as [|d1 d2 r1 r2 Hd Hr IH]; intros sent tr; [done|].
  simpl. destruct Hd as [Hn Hm].
  rewrite !run_bind. unfold catch. rewrite Hn.
  destruct (negb (name_in (destination d2) already)).
  - rewrite (forward_to_destination_same_route w s d1 d2 tr (conj Hn Hm)).
    destruct (_forward_to_destination w s d2 tr) as [r tr']. apply IH.
  - rewrite run_ret. apply IH.
Qed.

Lemma handle_pipeline_same_route w c1 c2 now s st :
  differ_only_in_alternate c1 c2 ->
  handle_pipeline w c1 now s st = handle_pipeline w c2 now s st.
Proof.
  intros (Hd & Hf & Hp). unfold handle_pipeline.
  replace (filter w c1 s) with (filter w c2 s)
    by (unfold filter; by rewrite Hf).
  apply bind_ext; intros s' st1. apply bind_ext; intros r st2.
  replace (process w c1 s') with (process w c2 s')
    by (unfold process; by rewrite Hp).
  apply bind_ext; intros [] st3. apply bind_ext; intros r' st4.
  rewrite (run_bind (io (forward w c1 s' (sent_to_destinations r')))).
  rewrite (run_bind (io (forward w c2 s' (sent_to_destinations r')))).
  rewrite (io_ext (forward w c1 s' (sent_to_destinations r'))
                  (forward w c2 s' (sent_to_destinations r')))
    by (intros tr; by apply forward_loop_same_route).
  rewrite (Forall2_length _ _ _ Hd). reflexivity.
Qed.

(** C10. Two configurations that differ only in the
    [alternate_destination] of their destinations behave alike: the dispatch
    to a destination, the forward step and a whole call of
    [handle_instances_set] return the same result and leave the same trace of
    calls, whatever fails on the way. *)
Theorem alternate_destination_is_inert w c1 c2 now s already tr st :
  differ_only_in_alternate c1 c2 ->
  (forall d1 d2, same_route d1 d2 ->
     _forward_to_destination w s d1 tr = _forward_to_destination w s d2 tr) /\
  forward w c1 s already tr = forward w c2 s already tr /\
  handle_instances_set w c1 now s st = handle_instances_set w c2 now s st.
Proof.
  intros H. split; [|split].
  - intros d1 d2. apply forward_to_destination_same_route.
  - unfold forward. apply forward_loop_same_route. apply H.
  - unfold handle_instances_set.
    destruct (_status st !! id s) as [r|].
    + rewrite !run_bind. unfold lift.
      destruct (py_lt _ _) as [[|]|e]; [done| |done].
      by apply handle_pipeline_same_route.
    + rewrite !run_bind. unfold put_status.
      by apply handle_pipeline_same_route.
Qed.

Lemma alternate_destination_is_inert_witness :
  let c1 := forwarder [dest "A" DICOM; dest "B" PEERING] in
  let c2 := forwarder [ {| destination := "A"; forwarder_mode := DICOM;
                           alternate_destination := Some "C" |};
                        dest "B" PEERING ] in
  forward peers_down c1 study [] [] = forward peers_down c2 study [] [] /\
  handle_instances_set peers_down c1 0 study initial =
  handle_instances_set peers_down c2 0 study initial.
Proof.
  intros c1 c2.
  destruct (alternate_destination_is_inert peers_down c1 c2 0 study [] []
              initial) as (_ & H2 & H3).
  - split; [|split; reflexivity].
    repeat constructor.
  - split; assumption.
Defined.

(** ** The trace of the pipeline steps *)

Lemma emits_filter w self s : emits filter_event (filter w self s).
Proof.
  unfold filter. destruct (_instance_filter self); auto with emits.
  apply emits_bind; [by apply emits_call|auto with emits].
Qed.

Lemma emits_process w self s : emits process_event (process w self s).
Proof.
  unfold process. destruct (_instance_processor self); auto with emits.
  apply emits_bind; [apply emits_catch; by apply emits_call|auto with emits].
Qed.

Lemma emits_forward w self s already :
  emits forward_event (forward w self s already).
Proof.
  unfold forward. apply emits_forward_loop.
  intros d _ _ e. by destruct e.
Qed.

Lemma process_step_run w self s r tr1 :
  exists b evs,
    process_step w self s r tr1 = (Ok b, tr1 ++ evs) /\
    Forall process_event evs /\
    (processed r = true -> b = true /\ evs = []).
Proof.
  unfold process_step. destruct (processed r).
  - exists true, []. rewrite run_ret, app_nil_r. auto.
  - destruct (process_never_raises w self s tr1) as (b & tr2 & E).
    destruct (emits_process w self s tr1) as (evs & E2 & F).
    rewrite E in E2. simpl in E2. subst tr2.
    exists b, evs. split; [done|]. split; [done|]. discriminate.
Qed.

(** The run of a failing processor: one call, recorded, and [False]. *)
Lemma process_fails_run w self p s tr1 tr2 :
  _instance_processor self = Some p ->
  process w self s tr1 = (Ok false, tr2) ->
  call_ok w tr1 (EvProcessInstances (id s) p (instances_ids s)) = false /\
  tr2 = tr1 ++ [EvProcessInstances (id s) p (instances_ids s)].
Proof.
  unfold process. intros ->. rewrite run_bind. unfold catch, call.
  destruct (call_ok w tr1 _); rewrite run_ret; intros [= <-]; auto.
Qed.

(** The traces of the three steps, laid end to end. *)
Lemma pipeline_steps_trace w self s0 tr0 r s tr1 b tr2 sent tr3 :
  filter w self s0 tr0 = (Ok s, tr1) ->
  process_step w self s r tr1 = (Ok b, tr2) ->
  forward w self s (sent_to_destinations r) tr2 = (Ok sent, tr3) ->
  exists e1 e2 e3,
    tr3 = tr0 ++ e1 ++ e2 ++ e3 /\
    Forall filter_event e1 /\ Forall process_event e2 /\
    Forall forward_event e3 /\
    (processed r = true -> b = true /\ e2 = []).
Proof.
  intros Hf Hp Hfw.
  destruct (emits_filter w self s0 tr0) as (e1 & E1 & F1).
  rewrite Hf in E1. simpl in E1.
  destruct (process_step_run w self s r tr1) as (b' & e2 & E2 & F2 & P2).
  rewrite Hp in E2. injection E2 as -> ->.
  destruct (emits_forward w self s (sent_to_destinations r) (tr1 ++ e2))
    as (e3 & E3 & F3).
  rewrite Hfw in E3. simpl in E3.
  exists e1, e2, e3. subst. rewrite <- !app_assoc. auto.
Qed.

Lemma sublist_same_length {A} (l1 l2 : list A) :
  sublist l1 l2 -> length l1 = length l2 -> l1 = l2.
Proof.
  induction 1 as [|x l1 l2 H IH|x l1 l2 H IH]; simpl; intros E.
  - done.
  - f_equal. apply IH. lia.
  - apply sublist_length in H. lia.
Qed.

(** ** Failure of the process step *)

(** C1, as the code has it.  In a call that got past the retry check
    ([handle_instances_set_first_sight] shows the first call for a set to be
    one), when the processor raises for a set whose record has
    [processed = False], the flag stays [False] and the forward step runs
    all the same, from the trace the failed processing left; the
    list it returns alone decides what follows: deletion of the set when it
    is as long as the list of destinations, a scheduled retry otherwise
    ([retry_count] plus one, [next_retry] at [now] plus the interval of the
    old [retry_count]). *)
Theorem failed_processing_does_not_stop_forwarding
  w self now s0 st r p s tr1 tr2 sent tr3 :
  _status st !! id s0 = Some r ->
  processed r = false ->
  0 <= retry_count r ->
  _instance_processor self = Some p ->
  filter w self s0 (trace st) = (Ok s, tr1) ->
  process w self s tr1 = (Ok false, tr2) ->
  forward w self s (sent_to_destinations r) tr2 = (Ok sent, tr3) ->
  let out := handle_pipeline w self now s0 st in
  tr2 = tr1 ++ [EvProcessInstances (id s) p (instances_ids s)] /\
  processed_of out.2 (id s0) = false /\
  if Nat.eqb (length sent) (length (_destinations self)) then
    trace out.2 = tr3 ++ [EvDelete (id s) (instances_ids s)]
  else
    exists seconds,
      retry_interval (retry_count r) = Ok seconds /\
      out.1 = Ok tt /\
      trace out.2 = tr3 /\
      _status out.2 !! id s0 =
        Some {| processed := false; sent_to_destinations := sent;
                retry_count := retry_count r + 1;
                next_retry := Some (now + timedelta_seconds seconds) |}.
Proof.
  intros Hr Hp H0 Hproc Hf Hrun Hfw out.
  destruct (process_fails_run _ _ _ _ _ _ Hproc Hrun) as [_ ->].
  split; [done|].
  assert (process_step w self s r tr1 =
          (Ok false, tr1 ++ [EvProcessInstances (id s) p (instances_ids s)]))
    as Hstep by (unfold process_step; by rewrite Hp).
  subst out.
  rewrite (handle_pipeline_run _ _ now _ _ _ _ _ _ _ _ _ Hr Hf Hstep Hfw).
  unfold processed_of.
  destruct (Nat.eqb (length sent) (length (_destinations self))).
  - simpl. rewrite lookup_insert_eq. done.
  - destruct (retry_interval_cases (retry_count r) H0)
      as [[_ R]|[[_ R]|[[_ R]|[[_ R]|[_ R]]]]];
      rewrite R; simpl; rewrite lookup_insert_eq;
      (split; [done|]); eexists; eauto.
Qed.

Lemma failed_processing_does_not_stop_forwarding_witness :
  let self := forwarder [dest "A" DICOM] in
  let st := {| _status := {["study-1" := new_status]}; trace := [] |} in
  let out := handle_pipeline processor_fails self 0 study st in
  processed_of out.2 "study-1" = false /\
  trace out.2 =
    [EvProcessInstances "study-1" "anonymize" ["i1"; "i2"; "i3"];
     EvSend modalities "A" ["i1"; "i2"; "i3"] [];
     EvDelete "study-1" ["i1"; "i2"; "i3"]].
Proof.
  intros self st out.
  destruct (failed_processing_does_not_stop_forwarding
              processor_fails self 0 study st new_status "anonymize" study []
              [EvProcessInstances "study-1" "anonymize" ["i1"; "i2"; "i3"]]
              ["A"]
              [EvProcessInstances "study-1" "anonymize" ["i1"; "i2"; "i3"];
               EvSend modalities "A" ["i1"; "i2"; "i3"] []])
    as (_ & H2 & H3);
    [reflexivity|reflexivity|simpl; lia|reflexivity|reflexivity|reflexivity
    |reflexivity|].
  split; [exact H2|exact H3].
Defined.

(** C1 as stated fails: with the processor raising and the only destination
    reachable, a first call of [handle_instances_set] sends the unprocessed
    instances and deletes the set. *)
Lemma failed_processing_still_sends_and_deletes :
  let self := forwarder [dest "A" DICOM] in
  let out := handle_instances_set processor_fails self 0 study initial in
  process processor_fails self study [] =
    (Ok false, [EvProcessInstances "study-1" "anonymize" ["i1"; "i2"; "i3"]]) /\
  out.1 = Ok tt /\
  trace out.2 =
    [EvProcessInstances "study-1" "anonymize" ["i1"; "i2"; "i3"];
     EvSend modalities "A" ["i1"; "i2"; "i3"] [];
     EvDelete "study-1" ["i1"; "i2"; "i3"]] /\
  _status out.2 !! "study-1" = Some new_status.
Proof. vm_compute. auto. Qed.

(** ** Deletion of the source *)

Lemma sent_this_round_spec already sent n :
  n ∈ sent_this_round already sent <-> n ∈ sent /\ n ∉ already.
Proof.
  unfold sent_this_round. rewrite list_elem_of_In, filter_In.
  rewrite <- list_elem_of_In.
  pose proof (name_in_spec n already) as H.
  destruct (name_in n already); simpl; intuition congruence.
Qed.

(** With the recorded aliases among the configured ones, what [forward]
    returns holds exactly the recorded aliases and those sent this round. *)
Lemma forward_result_is_union w self s already tr sent tr' :
  (forall n, n ∈ already -> n ∈ names self) ->
  forward w self s already tr = (Ok sent, tr') ->
  forall n, n ∈ already ++ sent_this_round already sent <-> n ∈ sent.
Proof.
  intros Hinv Hfw n.
  destruct (forward_run w self s already tr) as (sent' & tr'' & E & _ & Hc).
  rewrite Hfw in E. injection E as <- <-.
  rewrite elem_of_app, sent_this_round_spec. split.
  - intros [Ha|[Hs _]]; [|done].
    pose proof (Hinv n Ha) as Hn. unfold names in Hn.
    apply list_elem_of_fmap in Hn as (dd & -> & Hdd). auto.
  - intros Hs. destruct (decide (n ∈ already)); auto.
Qed.

(** C3, as the code has it.  In a call that got past the retry check and
    the filter, and so gets to the forward step, with pairwise distinct
    destination aliases and a record that names configured
    destinations only, the set is deleted from the source exactly when the
    destinations recorded before together with those sent this round are
    all the configured destinations. *)
Theorem deleted_iff_every_destination_is_sent
  w self now s0 st r s tr1 b tr2 sent tr3 :
  NoDup (names self) ->
  _status st !! id s0 = Some r ->
  (forall n, n ∈ sent_to_destinations r -> n ∈ names self) ->
  filter w self s0 (trace st) = (Ok s, tr1) ->
  process_step w self s r tr1 = (Ok b, tr2) ->
  forward w self s (sent_to_destinations r) tr2 = (Ok sent, tr3) ->
  let st' := (handle_pipeline w self now s0 st).2 in
  EvDelete (id s) (instances_ids s) ∈ new_events (trace st) (trace st')
  <->
  (forall n, n ∈ sent_to_destinations r
                   ++ sent_this_round (sent_to_destinations r) sent
             <-> n ∈ names self).
Proof.
  intros Hnd Hr Hinv Hf Hp Hfw st'.
  pose proof (forward_result_is_union _ _ _ _ _ _ _ Hinv Hfw) as Hunion.
  destruct (forward_run w self s (sent_to_destinations r) tr2)
    as (sent' & tr'' & E & Hsub & _).
  rewrite Hfw in E. injection E as <- <-.
  destruct (pipeline_steps_trace _ _ _ _ _ _ _ _ _ _ _ Hf Hp Hfw)
    as (e1 & e2 & e3 & Htr & F1 & F2 & F3 & _).
  assert (EvDelete (id s) (instances_ids s) ∉ e1 ++ e2 ++ e3) as Hnot.
  { rewrite !elem_of_app. rewrite Forall_forall in F1, F2, F3.
    intros [H|[H|H]]; [apply F1 in H|apply F2 in H|apply F3 in H]; done. }
  subst st'.
  rewrite (handle_pipeline_last_events _ _ now _ _ _ _ _ _ _ _ _
             Hr Hf Hp Hfw).
  rewrite Htr, <- !app_assoc, new_events_app.
  destruct (Nat.eqb (length sent) (length (_destinations self))) eqn:Hlen.
  - apply Nat.eqb_eq in Hlen. split.
    + intros _ n. rewrite Hunion.
      replace sent with (names self); [done|].
      symmetry. apply sublist_same_length; [done|].
      unfold names. by rewrite length_map.
    + intros _. rewrite !elem_of_app. right. right. right.
      apply list_elem_of_here.
  - apply Nat.eqb_neq in Hlen. rewrite app_nil_r. split; [done|].
    intros Hall. exfalso. apply Hlen.
    apply Nat.le_antisymm.
    + apply sublist_length in Hsub. unfold names in Hsub.
      by rewrite length_map in Hsub.
    + replace (length (_destinations self)) with (length (names self))
        by (unfold names; by rewrite length_map).
      apply submseteq_length, NoDup_submseteq; [done|].
      intros n Hn. apply Hunion, Hall, Hn.
Qed.

Lemma deleted_iff_every_destination_is_sent_witness :
  let self := forwarder [dest "A" DICOM; dest "B" PEERING] in
  let r := {| processed := true; sent_to_destinations := ["A"];
              retry_count := 1; next_retry := Some 60000000 |} in
  let tr := [EvProcessInstances "study-1" "anonymize" ["i1"; "i2"; "i3"];
             EvSend modalities "A" ["i1"; "i2"; "i3"] [];
             EvSend peers "B" ["i1"; "i2"; "i3"] []] in
  let st := {| _status := {["study-1" := r]}; trace := tr |} in
  let st' := (handle_pipeline b_fails_once self 70000000 study st).2 in
  EvDelete "study-1" ["i1"; "i2"; "i3"] ∈ new_events tr (trace st')
  <->
  (forall n, n ∈ ["A"] ++ sent_this_round ["A"] ["A"; "B"]
             <-> n ∈ names self).
Proof.
  intros self r tr st st'.
  apply (deleted_iff_every_destination_is_sent
           b_fails_once self 70000000 study st r study tr true tr
           ["A"; "B"] (tr ++ [EvSend peers "B" ["i1"; "i2"; "i3"] []])).
  - apply (bool_decide_unpack _). vm_compute. reflexivity.
  - reflexivity.
  - intros n Hn. apply (bool_decide_unpack _).
    apply list_elem_of_singleton in Hn. subst n. vm_compute. reflexivity.
  - reflexivity.
  - reflexivity.
  - reflexivity.
Defined.

(** C3 as stated fails when two destinations share an alias: with ["A"]
    configured once as a DICOM modality and once as a peer, and the peers
    unreachable, the aliases sent are all the configured aliases and yet
    the set is not deleted (the code compares the lengths of the lists). *)
Lemma same_alias_twice_is_not_deleted :
  let self := forwarder [dest "A" DICOM; dest "A" PEERING] in
  let tr1 := [EvProcessInstances "study-1" "anonymize" ["i1"; "i2"; "i3"]] in
  let out := handle_instances_set peers_down self 0 study initial in
  (forward peers_down self study [] tr1).1 = Ok ["A"] /\
  (forall n, n ∈ [] ++ sent_this_round [] ["A"] <-> n ∈ names self) /\
  out.1 = Ok tt /\
  trace out.2 = tr1 ++ [EvSend modalities "A" ["i1"; "i2"; "i3"] [];
                        EvSend peers "A" ["i1"; "i2"; "i3"] []] /\
  sent_of out.2 "study-1" = ["A"] /\
  (forall ids, EvDelete "study-1" ids ∉ trace out.2).
Proof.
  intros self tr1 out.
  split; [reflexivity|]. split.
  - intros n. change (n ∈ ["A"] <-> n ∈ ["A"; "A"]).
    rewrite !elem_of_cons. intuition.
  - split; [reflexivity|]. split; [reflexivity|]. split; [reflexivity|].
    intros ids H. vm_compute in H.
    repeat (apply elem_of_cons in H as [H|H]; [discriminate|]).
    by apply elem_of_nil in H.
Qed.

(** ** What a call does to the status store *)

Lemma handle_pipeline_no_record w self now s0 st s tr1 :
  _status st !! id s0 = None ->
  filter w self s0 (trace st) = (Ok s, tr1) ->
  handle_pipeline w self now s0 st =
  (Raise KeyError, {| _status := _status st; trace := tr1 |}).
Proof.
  intros Hr Hf. pose proof (filter_id _ _ _ _ _ _ Hf) as Hid.
  unfold handle_pipeline.
  erewrite run_bind_ok; [|by apply run_io].
  rewrite Hid. erewrite run_bind_raise; [done|].
  unfold get_status. simpl. by rewrite Hr.
Qed.

Lemma record_step_refl self r : record_step self r r.
Proof. unfold record_step. repeat split; auto. lia. Qed.

(** The pipeline leaves the store alone or rewrites the record of the set
    it handles, and then only by a [record_step]. *)
Lemma handle_pipeline_status w self now s0 st :
  _status (handle_pipeline w self now s0 st).2 = _status st \/
  exists r r',
    _status st !! id s0 = Some r /\
    _status (handle_pipeline w self now s0 st).2
      = <[id s0 := r']> (_status st) /\
    record_step self r r'.
Proof.
  destruct (filter w self s0 (trace st)) as [[s|e] tr1] eqn:Hf.
  2: { left. by erewrite handle_pipeline_filter_raises. }
  destruct (_status st !! id s0) as [r|] eqn:Hr.
  2: { left. by erewrite handle_pipeline_no_record. }
  destruct (process_step_run w self s r tr1) as (b & e2 & Hp & _ & Hb).
  destruct (forward_run w self s (sent_to_destinations r) (tr1 ++ e2))
    as (sent & tr3 & Hfw & Hsub & Hc).
  right. exists r.
  rewrite (handle_pipeline_run _ _ now _ _ _ _ _ _ _ _ _ Hr Hf Hp Hfw).
  assert (forall d, d ∈ sent_to_destinations r -> d ∈ names self ->
                    d ∈ sent) as Hkeep.
  { intros d Hd Hn. unfold names in Hn.
    apply list_elem_of_fmap in Hn as (dd & -> & Hdd). auto. }
  assert (forall d, d ∈ sent -> d ∈ names self) as Hin
    by (intros d Hd; eapply elem_of_sublist; eauto).
  assert (processed r = true -> b = true) as Hb' by (intros H; by apply Hb).
  destruct (Nat.eqb (length sent) (length (_destinations self))).
  - exists (set_processed b r). split; [done|]. split; [done|].
    unfold record_step. simpl.
    split; [done|]. split; [auto|]. split; [auto|lia].
  - destruct (retry_interval (retry_count r)) as [seconds|e];
      eexists; (split; [reflexivity|]); (split; [reflexivity|]);
      unfold record_step; simpl;
      (split; [done|]); (split; [auto|]); (split; [auto|lia]).
Qed.

(** A call of [handle_instances_set] changes nothing, or it is the first
    for its set and leaves a record that a [record_step] from the fresh
    record explains. *)
Lemma handle_instances_set_status w self now s st :
  (is_Some (_status st !! id s) /\
   (handle_instances_set w self now s st).2 = st) \/
  (_status st !! id s = None /\
   exists r',
     _status (handle_instances_set w self now s st).2
       = <[id s := r']> (_status st) /\
     record_step self new_status r').
Proof.
  destruct (_status st !! id s) as [r|] eqn:Hr.
  - left. split; [eauto|]. by erewrite handle_instances_set_known.
  - right. split; [done|].
    rewrite handle_instances_set_first_sight by done.
    destruct (handle_pipeline_status w self now s
                {| _status := <[id s := new_status]> (_status st);
                   trace := trace st |}) as [E|(r0 & r' & E0 & E & Hstep)].
    + exists new_status. split; [exact E|apply record_step_refl].
    + simpl in E0, E. rewrite lookup_insert_eq in E0.
      injection E0 as <-. exists r'.
      rewrite E, insert_insert_eq. done.
Qed.

Lemma handle_all_known w self calls : forall st,
  (forall c, c ∈ calls -> is_Some (_status st !! id c.2)) ->
  handle_all w self calls st = st.
Proof.
  induction calls as [|[now s] calls IH]; intros st H; [done|].
  simpl. destruct (H (now, s)) as [r Hr]; [by left|]. simpl in Hr.
  erewrite handle_instances_set_known by done. simpl.
  apply IH. intros c Hc. apply H. by right.
Qed.

(** ** Status records are kept *)

(** C4, as the code has it.  A call of [handle_instances_set] never removes
    a status record: every set with a record before has one after, and so
    has the set just handled.  When a first call delivers to every
    destination, it ends by deleting the set from the source and the record
    stays in the store, as created but for its [processed] flag. *)
Theorem status_record_is_kept w self now s0 st :
  (forall k, is_Some (_status st !! k) ->
     is_Some (_status (handle_instances_set w self now s0 st).2 !! k)) /\
  is_Some (_status (handle_instances_set w self now s0 st).2 !! id s0) /\
  (forall s tr1 b tr2 sent tr3,
     _status st !! id s0 = None ->
     filter w self s0 (trace st) = (Ok s, tr1) ->
     process w self s tr1 = (Ok b, tr2) ->
     forward w self s [] tr2 = (Ok sent, tr3) ->
     length sent = length (_destinations self) ->
     trace (handle_instances_set w self now s0 st).2
       = tr3 ++ [EvDelete (id s) (instances_ids s)] /\
     _status (handle_instances_set w self now s0 st).2 !! id s0
       = Some (set_processed b new_status)).
Proof.
  split; [|split].
  - intros k Hk.
    destruct (handle_instances_set_status w self now s0 st)
      as [[_ ->]|(Hnone & r' & -> & _)]; [done|].
    destruct (decide (id s0 = k)) as [->|Hne].
    + rewrite lookup_insert_eq. eauto.
    + by rewrite lookup_insert_ne.
  - destruct (handle_instances_set_status w self now s0 st)
      as [[Hs ->]|(Hnone & r' & -> & _)]; [done|].
    rewrite lookup_insert_eq. eauto.
  - intros s tr1 b tr2 sent tr3 Hnone Hf Hp Hfw Hlen.
    rewrite handle_instances_set_first_sight by done.
    erewrite handle_pipeline_run;
      [|simpl; apply lookup_insert_eq|exact Hf|exact Hp|exact Hfw].
    apply Nat.eqb_eq in Hlen. rewrite Hlen. simpl.
    rewrite insert_insert_eq, lookup_insert_eq. done.
Qed.

Lemma status_record_is_kept_witness :
  let self := forwarder [dest "A" DICOM; dest "B" PEERING] in
  let out := handle_instances_set all_ok self 0 study initial in
  trace out.2 =
    [EvProcessInstances "study-1" "anonymize" ["i1"; "i2"; "i3"];
     EvSend modalities "A" ["i1"; "i2"; "i3"] [];
     EvSend peers "B" ["i1"; "i2"; "i3"] []]
    ++ [EvDelete "study-1" ["i1"; "i2"; "i3"]] /\
  _status out.2 !! "study-1" = Some (set_processed true new_status).
Proof.
  intros self out.
  destruct (status_record_is_kept all_ok self 0 study initial)
    as (_ & _ & H).
  apply (H study [] true
           [EvProcessInstances "study-1" "anonymize" ["i1"; "i2"; "i3"]]
           ["A"; "B"]
           [EvProcessInstances "study-1" "anonymize" ["i1"; "i2"; "i3"];
            EvSend modalities "A" ["i1"; "i2"; "i3"] [];
            EvSend peers "B" ["i1"; "i2"; "i3"] []]);
    reflexivity.
Defined.

(** C4 as stated fails: after a first call that delivers to both
    destinations and deletes the set, the status record of the set is still
    in the store. *)
Lemma delivered_set_keeps_its_record :
  let self := forwarder [dest "A" DICOM; dest "B" PEERING] in
  let out := handle_instances_set all_ok self 0 study initial in
  out.1 = Ok tt /\
  trace out.2 =
    [EvProcessInstances "study-1" "anonymize" ["i1"; "i2"; "i3"];
     EvSend modalities "A" ["i1"; "i2"; "i3"] [];
     EvSend peers "B" ["i1"; "i2"; "i3"] [];
     EvDelete "study-1" ["i1"; "i2"; "i3"]] /\
  _status out.2 !! "study-1" =
    Some {| processed := true; sent_to_destinations := [];
            retry_count := 0; next_retry := None |}.
Proof. vm_compute. auto. Qed.

(** ** The recorded destinations only grow *)

Lemma sent_of_insert st' st k k' r' :
  _status st' = <[k' := r']> (_status st) ->
  sent_of st' k =
  if decide (k' = k) then sent_to_destinations r' else sent_of st k.
Proof.
  intros E. unfold sent_of. rewrite E.
  destruct (decide (k' = k)) as [->|Hne].
  - by rewrite lookup_insert_eq.
  - by rewrite lookup_insert_ne.
Qed.

(** C6. After a call of [handle_instances_set] the stored
    [sent_to_destinations] of every set holds all the aliases it held
    before.  The same is true of the pipeline run on a record that names
    configured destinations only: the list it stores in place of the old
    one, the one [forward] returned, repeats every alias of the old one. *)
Theorem sent_to_destinations_never_shrinks w self now s0 st :
  (forall k d, d ∈ sent_of st k ->
     d ∈ sent_of (handle_instances_set w self now s0 st).2 k) /\
  ((forall d, d ∈ sent_of st (id s0) -> d ∈ names self) ->
   forall k d, d ∈ sent_of st k ->
     d ∈ sent_of (handle_pipeline w self now s0 st).2 k).
Proof.
  split.
  - intros k d Hd.
    destruct (handle_instances_set_status w self now s0 st)
      as [[_ ->]|(Hnone & r' & E & _)]; [done|].
    rewrite (sent_of_insert _ _ _ _ _ E).
    destruct (decide (id s0 = k)) as [<-|Hne]; [|done].
    unfold sent_of in Hd. rewrite Hnone in Hd. by apply elem_of_nil in Hd.
  - intros Hinv k d Hd.
    destruct (handle_pipeline_status w self now s0 st)
      as [E|(r & r' & Hr & E & Hstep)].
    + unfold sent_of in *. by rewrite E.
    + rewrite (sent_of_insert _ _ _ _ _ E).
      destruct (decide (id s0 = k)) as [<-|Hne]; [|done].
      destruct Hstep as (_ & Hkeep & _).
      pose proof (Hinv d Hd) as Hn.
      unfold sent_of in Hd. rewrite Hr in Hd. auto.
Qed.

Lemma sent_to_destinations_never_shrinks_witness :
  let self := forwarder [dest "A" DICOM; dest "B" PEERING] in
  let r := {| processed := true; sent_to_destinations := ["A"];
              retry_count := 1; next_retry := Some 60000000 |} in
  let st := {| _status := {["study-1" := r]}; trace := [] |} in
  "A" ∈ sent_of (handle_instances_set peers_down self 70000000 study st).2
           "study-1" /\
  "A" ∈ sent_of (handle_pipeline peers_down self 70000000 study st).2
           "study-1".
Proof.
  intros self r st.
  destruct (sent_to_destinations_never_shrinks
              peers_down self 70000000 study st) as [H1 H2].
  split.
  - apply H1. apply list_elem_of_here.
  - apply H2; [|apply list_elem_of_here].
    intros d Hd. apply list_elem_of_singleton in Hd. subst d.
    apply list_elem_of_here.
Defined.

(** The recorded aliases stay among the configured ones. *)
Lemma sent_to_destinations_within_names w self now s st :
  (forall k d, d ∈ sent_of st k -> d ∈ names self) ->
  forall k d, d ∈ sent_of (handle_instances_set w self now s st).2 k ->
              d ∈ names self.
Proof.
  intros Hinv k d.
  destruct (handle_instances_set_status w self now s st)
    as [[_ ->]|(Hnone & r' & E & Hstep)]; [apply Hinv|].
  rewrite (sent_of_insert _ _ _ _ _ E).
  destruct (decide (id s = k)) as [<-|Hne]; [|apply Hinv].
  intros Hd. destruct Hstep as (_ & _ & Hin & _).
  destruct (Hin d Hd) as [H|H]; [|done]. by apply elem_of_nil in H.
Qed.

(** ** Processing happens once *)

Lemma applications_app k a b :
  applications k (a ++ b) = (applications k a + applications k b)%nat.
Proof. unfold applications. by rewrite List.filter_app, length_app. Qed.

Lemma applications_none k evs :
  Forall (fun e => ~ process_event e) evs -> applications k evs = 0%nat.
Proof.
  unfold applications. induction 1 as [|e evs He _ IH]; [done|].
  simpl. destruct e; simpl in *; done.
Qed.

Lemma no_process_among_filter_events evs :
  Forall filter_event evs -> Forall (fun e => ~ process_event e) evs.
Proof.
  intros H. eapply Forall_impl; [exact H|].
  intros e. destruct e; simpl; tauto.
Qed.

Lemma no_process_among_forward_events evs :
  Forall forward_event evs -> Forall (fun e => ~ process_event e) evs.
Proof.
  intros H. eapply Forall_impl; [exact H|].
  intros e. destruct e; simpl; tauto.
Qed.

Lemma process_configured_run w self p s tr :
  _instance_processor self = Some p ->
  process w self s tr =
  (Ok (call_ok w tr (EvProcessInstances (id s) p (instances_ids s))),
   tr ++ [EvProcessInstances (id s) p (instances_ids s)]).
Proof.
  intros Hp. unfold process. rewrite Hp, run_bind. unfold catch, call.
  by destruct (call_ok w tr _).
Qed.

Lemma processed_of_insert st' st k r' :
  _status st' = <[k := r']> (_status st) ->
  processed_of st' k = processed r'.
Proof. intros E. unfold processed_of. by rewrite E, lookup_insert_eq. Qed.

(** The trace of a pipeline run that got through the filter. *)
Lemma handle_pipeline_trace w self now s0 st r s tr1 b tr2 sent tr3 :
  _status st !! id s0 = Some r ->
  filter w self s0 (trace st) = (Ok s, tr1) ->
  process_step w self s r tr1 = (Ok b, tr2) ->
  forward w self s (sent_to_destinations r) tr2 = (Ok sent, tr3) ->
  exists last_events,
    trace (handle_pipeline w self now s0 st).2 = tr3 ++ last_events /\
    Forall (fun e => ~ process_event e) last_events /\
    processed_of (handle_pipeline w self now s0 st).2 (id s0) = b.
Proof.
  intros Hr Hf Hp Hfw.
  rewrite (handle_pipeline_run _ _ now _ _ _ _ _ _ _ _ _ Hr Hf Hp Hfw).
  destruct (Nat.eqb (length sent) (length (_destinations self))).
  - exists [EvDelete (id s) (instances_ids s)]. simpl.
    split; [done|]. split; [constructor; [simpl; tauto|constructor]|].
    unfold processed_of. simpl. by rewrite lookup_insert_eq.
  - exists []. rewrite app_nil_r.
    destruct (retry_interval (retry_count r)); simpl;
      (split; [done|]); (split; [constructor|]);
      unfold processed_of; simpl; by rewrite lookup_insert_eq.
Qed.

(** C5. The [processed] flag of a set, once [True], is [True] after every
    further call of [handle_instances_set]; the pipeline run on a record
    with [processed = True] keeps the flag and does not call the processor;
    and over a first call that leaves [processed = True] followed by any
    number of calls for the same set, the configured processor is applied
    to the set exactly once. *)
Theorem processing_happens_once w self now s st :
  (forall k, processed_of st k = true ->
     processed_of (handle_instances_set w self now s st).2 k = true) /\
  (forall r, _status st !! id s = Some r -> processed r = true ->
     let st' := (handle_pipeline w self now s st).2 in
     processed_of st' (id s) = true /\
     forall k, applications k (new_events (trace st) (trace st')) = 0%nat) /\
  (forall p calls,
     _instance_processor self = Some p ->
     _status st !! id s = None ->
     (forall c, c ∈ calls -> id c.2 = id s) ->
     let st1 := (handle_instances_set w self now s st).2 in
     processed_of st1 (id s) = true ->
     let st' := handle_all w self calls st1 in
     processed_of st' (id s) = true /\
     applications (id s) (new_events (trace st) (trace st')) = 1%nat).
Proof.
  split; [|split].
  - intros k Hk.
    destruct (handle_instances_set_status w self now s st)
      as [[_ ->]|(Hnone & r' & E & _)]; [done|].
    unfold processed_of in *. rewrite E.
    destruct (decide (id s = k)) as [<-|Hne].
    + by rewrite Hnone in Hk.
    + by rewrite lookup_insert_ne.
  - intros r Hr Hpr st'. subst st'.
    destruct (filter w self s (trace st)) as [[s'|e] tr1] eqn:Hf.
    + destruct (process_step_run w self s' r tr1) as (b & e2 & Hp & _ & Hb).
      destruct (Hb Hpr) as [-> ->]. rewrite app_nil_r in Hp.
      destruct (forward_run w self s' (sent_to_destinations r) tr1)
        as (sent & tr3 & Hfw & _).
      destruct (pipeline_steps_trace _ _ _ _ _ _ _ _ _ _ _ Hf Hp Hfw)
        as (e1 & e2 & e3 & -> & F1 & _ & F3 & He2).
      destruct (He2 Hpr) as [_ ->].
      destruct (handle_pipeline_trace _ _ now _ _ _ _ _ _ _ _ _ Hr Hf Hp Hfw)
        as (le & -> & Fl & ->).
      split; [done|]. intros k.
      rewrite <- !app_assoc, new_events_app. simpl.
      apply applications_none. rewrite !Forall_app.
      auto using no_process_among_filter_events,
        no_process_among_forward_events.
    + erewrite handle_pipeline_filter_raises by done. simpl.
      unfold processed_of. simpl. rewrite Hr. split; [done|]. intros k.
      destruct (emits_filter w self s (trace st)) as (e1 & E1 & F1).
      rewrite Hf in E1. simpl in E1. subst tr1. rewrite new_events_app.
      by apply applications_none, no_process_among_filter_events.
  - intros p calls Hp Hnone Hcalls st1 Hdone st'.
    assert (is_Some (_status st1 !! id s)) as Hsome.
    { subst st1.
      destruct (handle_instances_set_status w self now s st)
        as [[Hs _]|(_ & r' & -> & _)]; [by rewrite Hnone in Hs|].
      rewrite lookup_insert_eq. eauto. }
    assert (st' = st1) as ->.
    { subst st'. apply handle_all_known. intros c Hc.
      by rewrite (Hcalls c Hc). }
    split; [done|].
    subst st1. revert Hdone.
    rewrite handle_instances_set_first_sight by done.
    set (st0 := {| _status := <[id s := new_status]> (_status st);
                   trace := trace st |}).
    assert (_status st0 !! id s = Some new_status) as Hr
      by (simpl; apply lookup_insert_eq).
    destruct (filter w self s (trace st0)) as [[s'|e] tr1] eqn:Hf.
    + pose proof (filter_id _ _ _ _ _ _ Hf) as Hid.
      pose proof (process_configured_run w self p s' tr1 Hp) as Hrun.
      assert (process_step w self s' new_status tr1 =
              (Ok (call_ok w tr1 (EvProcessInstances (id s') p
                                    (instances_ids s'))),
               tr1 ++ [EvProcessInstances (id s') p (instances_ids s')]))
        as Hstep by exact Hrun.
      destruct (forward_run w self s' (sent_to_destinations new_status)
                  (tr1 ++ [EvProcessInstances (id s') p (instances_ids s')]))
        as (sent & tr3 & Hfw & _).
      destruct (handle_pipeline_trace _ _ now _ _ _ _ _ _ _ _ _
                  Hr Hf Hstep Hfw) as (le & -> & Fl & ->).
      intros _.
      destruct (emits_filter w self s (trace st0)) as (e1 & E1 & F1).
      rewrite Hf in E1. simpl in E1.
      destruct (emits_forward w self s' (sent_to_destinations new_status)
                  (tr1 ++ [EvProcessInstances (id s') p (instances_ids s')]))
        as (e3 & E3 & F3).
      rewrite Hfw in E3. simpl in E3. subst tr3 tr1.
      rewrite <- !app_assoc, new_events_app, !applications_app.
      rewrite (applications_none _ e1), (applications_none _ e3),
        (applications_none _ le);
        auto using no_process_among_filter_events,
          no_process_among_forward_events.
      unfold applications. simpl. rewrite Hid, String.eqb_refl. done.
    + erewrite handle_pipeline_filter_raises by done.
      unfold processed_of. simpl. rewrite lookup_insert_eq. done.
Qed.

Lemma processing_happens_once_witness :
  let self := forwarder [dest "A" DICOM; dest "B" PEERING] in
  let st1 := (handle_instances_set b_fails_once self 0 study initial).2 in
  let st' := handle_all b_fails_once self
               [(70000000, study); (200000000, study)] st1 in
  processed_of st' "study-1" = true /\
  applications "study-1" (new_events [] (trace st')) = 1%nat.
Proof.
  intros self st1 st'.
  destruct (processing_happens_once b_fails_once self 0 study initial)
    as (_ & _ & H).
  apply (H "anonymize" [(70000000, study); (200000000, study)]).
  - reflexivity.
  - reflexivity.
  - intros c Hc. apply elem_of_cons in Hc as [->|Hc]; [reflexivity|].
    apply list_elem_of_singleton in Hc. subst c. reflexivity.
  - vm_compute. reflexivity.
Defined.

(** ** The scenario of two destinations

    ["A"] always accepts, ["B"] refuses once.  The first call delivers to
    ["A"], records it and schedules a retry a minute later; the pipeline run
    again on that state, as a retry let through would, sends to ["B"] only
    and deletes the study. *)

Example two_destinations_first_call :
  handle_instances_set b_fails_once
    (forwarder [dest "A" DICOM; dest "B" PEERING]) 0 study initial
  = (Ok tt,
     {| _status :=
          {["study-1" := {| processed := true; sent_to_destinations := ["A"];
                            retry_count := 1;
                            next_retry := Some 60000000 |}]};
        trace :=
          [EvProcessInstances "study-1" "anonymize" ["i1"; "i2"; "i3"];
           EvSend modalities "A" ["i1"; "i2"; "i3"] [];
           EvSend peers "B" ["i1"; "i2"; "i3"] []] |}).
Proof.
  rewrite handle_instances_set_first_sight by reflexivity.
  erewrite handle_pipeline_run; try reflexivity.
  simpl. by rewrite insert_insert_eq, insert_empty.
Qed.

Example two_destinations_retry_let_through :
  let st1 := (handle_instances_set b_fails_once
                (forwarder [dest "A" DICOM; dest "B" PEERING]) 0 study
                initial).2 in
  let out := handle_pipeline b_fails_once
               (forwarder [dest "A" DICOM; dest "B" PEERING]) 70000000 study
               st1 in
  out.1 = Ok tt /\
  new_events (trace st1) (trace out.2) =
    [EvSend peers "B" ["i1"; "i2"; "i3"] [];
     EvDelete "study-1" ["i1"; "i2"; "i3"]].
Proof. vm_compute. auto. Qed.

(** * Further properties *)

(** ** Startup *)

Lemma failed_probes_succ cfg n :
  failed_probes cfg (S n) =
  [EvIsAlive; EvSleep (_polling_interval_in_seconds cfg)]
    ++ failed_probes cfg n.
Proof. reflexivity. Qed.

(** [n] failed probes that do not exhaust the retries are skipped. *)
Lemma wait_loop_skip src cfg n : forall fuel probe retry tr,
  (forall m, (m < n)%nat -> is_alive src (probe + m) = false) ->
  (forall j, 1 <= j <= Z.of_nat n ->
             retry + j <> _max_retry_count_at_startup cfg) ->
  wait_loop (n + fuel) src cfg probe retry tr =
  wait_loop fuel src cfg (probe + n) (retry + Z.of_nat n)
    (tr ++ failed_probes cfg n).
Proof.
  induction n as [|n IH]; intros fuel probe retry tr Hdown Hne.
  - simpl. rewrite Nat.add_0_r, Z.add_0_r, app_nil_r. reflexivity.
  - simpl wait_loop.
    pose proof (Hdown 0%nat ltac:(lia)) as H0. rewrite Nat.add_0_r in H0.
    rewrite H0.
    destruct (Z.eqb_spec (retry + 1) (_max_retry_count_at_startup cfg))
      as [E|_]; [exfalso; apply (Hne 1); [lia|exact E]|].
    rewrite IH.
    + rewrite failed_probes_succ, <- app_assoc.
      f_equal; [lia|lia].
    + intros m Hm. replace (S probe + m)%nat with (probe + S m)%nat by lia.
      apply Hdown. lia.
    + intros j Hj. replace (retry + 1 + j) with (retry + (1 + j)) by lia.
      apply Hne. lia.
Qed.

(** X1. Orthanc answers the probe of rank [n] and none before, and the
    retries are not exhausted by then ([n] is below the maximum, or the
    maximum is zero or negative and so never reached): the wait ends after
    [n] sleeps, reads the system once, and raises only for an Orthanc whose
    [OverwriteInstances] is false while a processor is configured. *)
Theorem wait_orthanc_started_connects src cfg self (n fuel : nat) :
  is_alive src n = true ->
  (forall m, (m < n)%nat -> is_alive src m = false) ->
  Z.of_nat n < _max_retry_count_at_startup cfg \/
    _max_retry_count_at_startup cfg <= 0 ->
  (n < fuel)%nat ->
  wait_orthanc_started fuel src cfg self =
    Some (check_system src self,
          failed_probes cfg n ++ [EvIsAlive; EvGetSystem]) /\
  (check_system src self = Some InvalidConfiguration <->
   overwrite_instances src = Some false /\
   exists p, _instance_processor self = Some p) /\
  (check_system src self = None \/
   check_system src self = Some InvalidConfiguration).
Proof.
  intros Hup Hdown Hmax Hfuel. split; [|split].
  - unfold wait_orthanc_started.
    replace fuel with (n + S (fuel - S n))%nat by lia.
    rewrite wait_loop_skip; [|intros m Hm; by apply Hdown|intros j Hj; lia].
    simpl. rewrite Hup. simpl. rewrite <- !app_assoc. reflexivity.
  - unfold check_system.
    destruct (overwrite_instances src) as [[|]|];
      destruct (_instance_processor self) as [p|]; split;
      try discriminate; try (intros [? [? ?]]; discriminate); eauto.
  - unfold check_system.
    destruct (overwrite_instances src) as [[|]|];
      destruct (_instance_processor self); auto.
Qed.

Lemma wait_orthanc_started_connects_witness :
  let src := {| is_alive := fun n => Nat.leb 2 n;
                overwrite_instances := Some false |} in
  let cfg := {| _max_retry_count_at_startup := 5;
                _polling_interval_in_seconds := 1 |} in
  wait_orthanc_started 10 src cfg (forwarder []) =
    Some (Some InvalidConfiguration,
          [EvIsAlive; EvSleep 1; EvIsAlive; EvSleep 1; EvIsAlive;
           EvGetSystem]).
Proof.
  intros src cfg.
  destruct (wait_orthanc_started_connects src cfg (forwarder []) 2 10)
    as (H & _ & _);
    [reflexivity
    |intros m Hm; destruct m as [|[|m]]; [reflexivity|reflexivity|lia]
    |left; simpl; lia
    |lia
    |exact H].
Defined.

(** X2. With a maximum of at least one and an Orthanc that answers none of
    the first [max] probes, the wait raises after exactly [max] probes and
    [max - 1] sleeps, without reading the system. *)
Theorem wait_orthanc_started_gives_up src cfg self (fuel : nat) :
  1 <= _max_retry_count_at_startup cfg ->
  (forall m, Z.of_nat m < _max_retry_count_at_startup cfg ->
             is_alive src m = false) ->
  (Z.to_nat (_max_retry_count_at_startup cfg) <= fuel)%nat ->
  wait_orthanc_started fuel src cfg self =
    Some (Some CouldNotConnect,
          failed_probes cfg
            (Z.to_nat (_max_retry_count_at_startup cfg) - 1)
            ++ [EvIsAlive]).
Proof.
  intros Hmax Hdown Hfuel. unfold wait_orthanc_started.
  set (n := (Z.to_nat (_max_retry_count_at_startup cfg) - 1)%nat).
  replace fuel with (n + S (fuel - S n))%nat by lia.
  rewrite wait_loop_skip;
    [|intros m Hm; apply Hdown; lia|intros j Hj; lia].
  simpl. rewrite Hdown by lia.
  destruct (Z.eqb_spec (0 + Z.of_nat n + 1)
              (_max_retry_count_at_startup cfg)) as [_|Hne];
    [reflexivity|lia].
Qed.

Lemma wait_orthanc_started_gives_up_witness :
  let src := {| is_alive := fun _ => false;
                overwrite_instances := None |} in
  let cfg := {| _max_retry_count_at_startup := 3;
                _polling_interval_in_seconds := 1 |} in
  wait_orthanc_started 3 src cfg (forwarder []) =
    Some (Some CouldNotConnect,
          [EvIsAlive; EvSleep 1; EvIsAlive; EvSleep 1; EvIsAlive]).
Proof.
  intros src cfg.
  apply (wait_orthanc_started_gives_up src cfg (forwarder []) 3).
  - simpl. lia.
  - reflexivity.
  - simpl. lia.
Defined.

(** X3. With a maximum of zero or less the counter never meets it: while
    Orthanc does not answer, the wait neither returns nor raises, however
    many probes it is given. *)
Theorem wait_orthanc_started_never_gives_up src cfg self :
  _max_retry_count_at_startup cfg <= 0 ->
  (forall m, is_alive src m = false) ->
  forall fuel, wait_orthanc_started fuel src cfg self = None.
Proof.
  intros Hmax Hdown fuel. unfold wait_orthanc_started.
  replace fuel with (fuel + 0)%nat by lia.
  rewrite wait_loop_skip; [reflexivity|auto|intros j Hj; lia].
Qed.

Lemma wait_orthanc_started_never_gives_up_witness :
  wait_orthanc_started 1000
    {| is_alive := fun _ => false; overwrite_instances := None |}
    {| _max_retry_count_at_startup := 0;
       _polling_interval_in_seconds := 1 |}
    (forwarder []) = None.
Proof.
  apply (wait_orthanc_started_never_gives_up
           {| is_alive := fun _ => false; overwrite_instances := None |}
           {| _max_retry_count_at_startup := 0;
              _polling_interval_in_seconds := 1 |} (forwarder [])).
  - simpl. lia.
  - reflexivity.
Defined.

(** ** The forward step, destination by destination *)

Lemma whole_set_run w s d ev tr :
  whole_set_send s d = Some ev ->
  _forward_to_destination w s d tr =
  (if call_ok w tr ev then Ok tt else Raise ExternalError, tr ++ [ev]).
Proof.
  unfold whole_set_send, _forward_to_destination.
  destruct (forwarder_mode d); intros [= <-]; reflexivity.
Qed.

Lemma whole_set_send_target s d ev n :
  whole_set_send s d = Some ev -> dispatch_event n ev -> n = destination d.
Proof.
  unfold whole_set_send.
  destruct (forwarder_mode d); intros [= <-]; simpl; congruence.
Qed.

(** X4. [forward] never raises, whatever the transports do: it returns
    aliases of configured destinations, in the order of the configuration,
    and adds to the trace nothing but sends and reads of series
    statistics. *)
Theorem forward_never_raises w self s already tr :
  exists sent evs,
    forward w self s already tr = (Ok sent, tr ++ evs) /\
    sublist sent (names self) /\
    Forall forward_event evs.
Proof.
  destruct (forward_run w self s already tr) as (sent & tr' & E & Hs & _).
  destruct (emits_forward w self s already tr) as (evs & E2 & F).
  rewrite E in E2. simpl in E2. subst tr'.
  exists sent, evs. auto.
Qed.

Lemma forward_loop_attempts w s already d ev dests :
  d ∈ dests -> destination d ∉ already -> whole_set_send s d = Some ev ->
  forall sent tr, exists pre post,
    (forward_loop w s already dests sent tr).2 = tr ++ pre ++ ev :: post.
Proof.
  intros Hd Hpend Hev.
  assert (name_in (destination d) already = false) as Hn.
  { destruct (name_in (destination d) already) eqn:E; [|done].
    by apply name_in_spec in E. }
  induction dests as [|head rest IH]; intros sent tr.
  { by apply elem_of_nil in Hd. }
  simpl. rewrite run_bind.
  destruct (emits_catch forward_event
              (if negb (name_in (destination head) already)
               then _forward_to_destination w s head else mret ()))
    with (tr := tr) as (e1 & E1 & _).
  { destruct (negb _); [|apply emits_ret].
    eapply emits_mono; [|apply emits_forward_to_destination].
    intros e. by destruct e. }
  apply elem_of_cons in Hd as [<-|Hd].
  - unfold catch. rewrite Hn. simpl.
    rewrite (whole_set_run _ _ _ _ _ Hev).
    set (sent1 := match _ with Ok _ => _ | Raise _ => _ end).
    destruct (emits_forward_loop w (fun _ => True) s already rest
                ltac:(done) sent1 (tr ++ [ev])) as (post & E & _).
    exists [], post. rewrite E, <- app_assoc. reflexivity.
  - destruct (catch _ tr) as [[r|e] tr1] eqn:Hc; simpl in E1; subst tr1.
    + destruct (IH Hd (match r with
                       | Ok _ => sent ++ [destination head]
                       | Raise _ => sent
                       end) (tr ++ e1)) as (pre & post & E).
      exists (e1 ++ pre), post. rewrite E, <- !app_assoc. reflexivity.
    + unfold catch in Hc. by destruct (_ tr).
Qed.

(** X5. A failure at one destination does not keep [forward] from trying
    the others: every configured destination of a whole-set mode (DICOM,
    peering, transfer) whose alias is not already recorded gets its send
    call, whatever happened to the destinations before it. *)
Theorem every_pending_destination_is_attempted w self s already tr d ev :
  d ∈ _destinations self ->
  destination d ∉ already ->
  whole_set_send s d = Some ev ->
  ev ∈ new_events tr (forward w self s already tr).2.
Proof.
  intros Hd Hpend Hev. unfold forward.
  destruct (forward_loop_attempts w s already d ev (_destinations self)
              Hd Hpend Hev [] tr) as (pre & post & E).
  rewrite E, new_events_app, elem_of_app. right. apply list_elem_of_here.
Qed.

Lemma every_pending_destination_is_attempted_witness :
  EvSend peers "B" ["i1"; "i2"; "i3"] []
  ∈ new_events []
      (forward processor_fails
         (forwarder [dest "Z" (OTHER_MODE "ftp"); dest "B" PEERING])
         study [] []).2.
Proof.
  apply (every_pending_destination_is_attempted processor_fails
           (forwarder [dest "Z" (OTHER_MODE "ftp"); dest "B" PEERING])
           study [] [] (dest "B" PEERING)).
  - apply list_elem_of_further, list_elem_of_here.
  - apply not_elem_of_nil.
  - reflexivity.
Defined.

Lemma emits_forward_loop_others w s already ev (alias : string) dests :
  (forall n, dispatch_event n ev -> n = alias) ->
  alias ∉ map destination dests ->
  forall sent, emits (fun e => e <> ev) (forward_loop w s already dests sent).
Proof.
  intros Hev Hnot. apply emits_forward_loop.
  intros d Hd _ e He ->. apply Hnot.
  rewrite <- (Hev _ He). apply list_elem_of_fmap. eauto.
Qed.

Lemma forward_loop_recorded w s already d ev dests :
  NoDup (map destination dests) ->
  d ∈ dests -> destination d ∉ already -> whole_set_send s d = Some ev ->
  forall sent tr, destination d ∉ sent ->
  exists out pre post,
    forward_loop w s already dests sent tr = (Ok out, tr ++ pre ++ ev :: post)
    /\ (ev ∉ pre) /\ (ev ∉ post) /\
    (destination d ∈ out <-> call_ok w (tr ++ pre) ev = true).
Proof.
  intros Hnd Hd Hpend Hev.
  assert (name_in (destination d) already = false) as Hn.
  { destruct (name_in (destination d) already) eqn:E; [|done].
    by apply name_in_spec in E. }
  pose proof (fun n => whole_set_send_target s d ev n Hev) as Htarget.
  induction dests as [|head rest IH]; intros sent tr Hsent.
  { by apply elem_of_nil in Hd. }
  simpl in Hnd. apply NoDup_cons in Hnd as [Hhead Hrest].
  simpl. rewrite run_bind.
  apply elem_of_cons in Hd as [<-|Hd].
  - unfold catch. rewrite Hn. simpl.
    rewrite (whole_set_run _ _ _ _ _ Hev).
    set (sent1 := if call_ok w tr ev then sent ++ [destination d] else sent).
    replace (match (if call_ok w tr ev then Ok () else Raise ExternalError)
             with Ok _ => sent ++ [destination d] | Raise _ => sent end)
      with sent1 by (subst sent1; by destruct (call_ok w tr ev)).
    destruct (forward_loop_run w s already rest sent1 (tr ++ [ev]))
      as (names' & tr' & E & Hsub & _).
    destruct (emits_forward_loop_others w s already ev (destination d) rest
                Htarget Hhead sent1 (tr ++ [ev])) as (post & E2 & F).
    rewrite E in E2. simpl in E2. subst tr'.
    exists (sent1 ++ names'), [], post.
    rewrite E, <- app_assoc, app_nil_r. simpl.
    split; [done|]. split; [apply not_elem_of_nil|].
    split. { intros H. rewrite Forall_forall in F. by apply (F ev). }
    rewrite elem_of_app. subst sent1.
    destruct (call_ok w tr ev); split; try done.
    + intros _. left. rewrite elem_of_app. right. apply list_elem_of_here.
    + intros [H|H]; [done|]. exfalso. apply Hhead.
      eapply elem_of_sublist; eauto.
  - assert (destination head <> destination d) as Hne.
    { intros E. apply Hhead. rewrite E. apply list_elem_of_fmap. eauto. }
    destruct (emits_catch (fun e => e <> ev)
                (if negb (name_in (destination head) already)
                 then _forward_to_destination w s head else mret ()))
      with (tr := tr) as (e1 & E1 & F1).
    { destruct (negb _); [|apply emits_ret].
      eapply emits_mono; [|apply emits_forward_to_destination].
      intros e He ->. apply Hne. by apply Htarget. }
    destruct (catch _ tr) as [[r|e] tr1] eqn:Hc; simpl in E1; subst tr1.
    2: { unfold catch in Hc. by destruct (_ tr). }
    destruct (IH Hrest Hd (match r with
                           | Ok _ => sent ++ [destination head]
                           | Raise _ => sent
                           end) (tr ++ e1))
      as (out & pre & post & E & Hpre & Hpost & Hiff).
    { destruct r; [|done]. rewrite elem_of_app, list_elem_of_singleton.
      intros [H|H]; [done|congruence]. }
    exists out, (e1 ++ pre), post.
    rewrite E, <- !app_assoc. split; [done|].
    split. { rewrite elem_of_app. intros [H|H]; [|done].
             rewrite Forall_forall in F1. by apply (F1 ev). }
    split; [done|]. by rewrite app_assoc.
Qed.

(** X6. With pairwise distinct aliases, a destination of a whole-set mode
    that was not recorded before gets exactly one send call in a run of
    [forward], and its alias is in the returned list exactly when that call
    returned without raising. *)
Theorem recorded_iff_send_succeeded w self s already tr d ev :
  NoDup (names self) ->
  d ∈ _destinations self ->
  destination d ∉ already ->
  whole_set_send s d = Some ev ->
  exists sent pre post,
    forward w self s already tr = (Ok sent, tr ++ pre ++ ev :: post) /\
    (ev ∉ pre) /\ (ev ∉ post) /\
    (destination d ∈ sent <-> call_ok w (tr ++ pre) ev = true).
Proof.
  intros Hnd Hd Hpend Hev. unfold forward.
  apply forward_loop_recorded; auto. apply not_elem_of_nil.
Qed.

Lemma recorded_iff_send_succeeded_witness :
  exists sent pre post,
    forward b_fails_once (forwarder [dest "A" DICOM; dest "B" PEERING])
      study [] []
    = (Ok sent, [] ++ pre ++ EvSend peers "B" ["i1"; "i2"; "i3"] [] :: post)
    /\ (EvSend peers "B" ["i1"; "i2"; "i3"] [] ∉ pre)
    /\ (EvSend peers "B" ["i1"; "i2"; "i3"] [] ∉ post)
    /\ ("B" ∈ sent <->
        call_ok b_fails_once ([] ++ pre)
          (EvSend peers "B" ["i1"; "i2"; "i3"] []) = true).
Proof.
  apply (recorded_iff_send_succeeded b_fails_once
           (forwarder [dest "A" DICOM; dest "B" PEERING]) study [] []
           (dest "B" PEERING)).
  - apply (bool_decide_unpack _). vm_compute. reflexivity.
  - apply list_elem_of_further, list_elem_of_here.
  - apply not_elem_of_nil.
  - reflexivity.
Defined.

(** ** Destinations that cannot be delivered *)

Lemma forward_loop_undelivered w s already d dests :
  d ∈ dests -> destination d ∉ already -> never_delivers w s d ->
  forall sent tr out tr',
    forward_loop w s already dests sent tr = (Ok out, tr') ->
    (length out < length sent + length dests)%nat.
Proof.
  intros Hd Hpend Hnever.
  assert (name_in (destination d) already = false) as Hn.
  { destruct (name_in (destination d) already) eqn:E; [|done].
    by apply name_in_spec in E. }
  induction dests as [|head rest IH]; intros sent tr out tr' Hrun.
  { by apply elem_of_nil in Hd. }
  simpl in Hrun. rewrite run_bind in Hrun.
  apply elem_of_cons in Hd as [<-|Hd].
  - unfold catch in Hrun. rewrite Hn in Hrun. simpl in Hrun.
    pose proof (Hnever tr) as Hno.
    destruct (_forward_to_destination w s d tr) as [[[]|e] tr1];
      [done|].
    destruct (forward_loop_run w s already rest sent tr1)
      as (names' & tr'' & E & Hsub & _).
    rewrite E in Hrun. injection Hrun as <- <-.
    apply sublist_length in Hsub.
    rewrite length_map in Hsub. rewrite length_app. simpl. lia.
  - destruct (catch _ tr) as [[r|e] tr1] eqn:Hc.
    2: { unfold catch in Hc. by destruct (_ tr). }
    apply IH in Hrun; [|done].
    destruct r; [rewrite length_app in Hrun|]; simpl in *; lia.
Qed.

(** A first call for a set that one of the configured destinations cannot
    receive: the call returns without raising, requests no deletion, and
    leaves a record with fewer aliases than destinations, a retry count of
    one and the next retry a minute after [now]. *)
Lemma undeliverable_destination_blocks_deletion
  w self now s0 st s tr1 d :
  _status st !! id s0 = None ->
  filter w self s0 (trace st) = (Ok s, tr1) ->
  d ∈ _destinations self ->
  never_delivers w s d ->
  let out := handle_instances_set w self now s0 st in
  out.1 = Ok tt /\
  (forall k ids, EvDelete k ids ∉ new_events (trace st) (trace out.2)) /\
  exists r',
    _status out.2 !! id s0 = Some r' /\
    retry_count r' = 1 /\
    next_retry r' = Some (now + timedelta_seconds 60) /\
    (length (sent_to_destinations r') < length (_destinations self))%nat.
Proof.
  intros Hnone Hf Hd Hnever out. subst out.
  rewrite handle_instances_set_first_sight by done.
  set (st0 := {| _status := <[id s0 := new_status]> (_status st);
                 trace := trace st |}).
  assert (_status st0 !! id s0 = Some new_status) as Hr
    by (simpl; apply lookup_insert_eq).
  change (trace st) with (trace st0) in Hf.
  destruct (process_step_run w self s new_status tr1) as (b & e2 & Hp & _).
  destruct (forward_run w self s (sent_to_destinations new_status)
              (tr1 ++ e2)) as (sent & tr3 & Hfw & _).
  destruct (pipeline_steps_trace _ _ _ _ _ _ _ _ _ _ _ Hf Hp Hfw)
    as (e1 & e2' & e3 & Htr & F1 & F2 & F3 & _).
  assert (length sent < length (_destinations self))%nat as Hlen.
  { unfold forward in Hfw.
    apply (forward_loop_undelivered _ _ _ _ _ Hd (not_elem_of_nil _)
             Hnever) in Hfw. simpl in Hfw. lia. }
  rewrite (handle_pipeline_run _ _ now _ _ _ _ _ _ _ _ _ Hr Hf Hp Hfw).
  destruct (Nat.eqb_spec (length sent) (length (_destinations self)))
    as [E|_]; [lia|].
  simpl. split; [done|]. split.
  - intros k ids. change (trace st) with (trace st0).
    rewrite Htr, new_events_app, !elem_of_app.
    rewrite Forall_forall in F1, F2, F3.
    intros [H|[H|H]]; [apply F1 in H|apply F2 in H|apply F3 in H]; done.
  - eexists. rewrite lookup_insert_eq. split; [reflexivity|]. simpl. auto.
Qed.

Lemma unknown_mode_never_delivers w s d v :
  forwarder_mode d = OTHER_MODE v -> never_delivers w s d.
Proof.
  intros Hm tr. unfold _forward_to_destination. rewrite Hm. discriminate.
Qed.

(** X7. A destination whose mode is none of the six known ones is not a
    fatal error for [handle_instances_set]: the [NotImplementedError] of the
    dispatch is caught by [forward] like a delivery failure, so a first call
    returns normally, never deletes the set and schedules a retry. *)
Theorem unknown_mode_is_retried_not_fatal w self now s0 st s tr1 d v :
  _status st !! id s0 = None ->
  filter w self s0 (trace st) = (Ok s, tr1) ->
  d ∈ _destinations self ->
  forwarder_mode d = OTHER_MODE v ->
  (forall tr, _forward_to_destination w s d tr = (Raise NotImplementedError, tr))
  /\ (handle_instances_set w self now s0 st).1 = Ok tt
  /\ (forall k ids,
        EvDelete k ids ∉
          new_events (trace st)
            (trace (handle_instances_set w self now s0 st).2))
  /\ sent_of (handle_instances_set w self now s0 st).2 (id s0)
       <> names self
  /\ exists r',
       _status (handle_instances_set w self now s0 st).2 !! id s0 = Some r'
       /\ next_retry r' = Some (now + timedelta_seconds 60).
Proof.
  intros Hnone Hf Hd Hm.
  destruct (undeliverable_destination_blocks_deletion w self now s0 st s tr1
              d Hnone Hf Hd (unknown_mode_never_delivers w s d v Hm))
    as (Hok & Hdel & r' & Hr' & _ & Hnext & Hlen).
  split. { intros tr. unfold _forward_to_destination. by rewrite Hm. }
  split; [done|]. split; [done|]. split.
  - unfold sent_of. rewrite Hr'. intros E. rewrite E in Hlen.
    unfold names in Hlen. rewrite length_map in Hlen. lia.
  - eauto.
Qed.

Lemma unknown_mode_is_retried_not_fatal_witness :
  let self := forwarder [dest "A" DICOM; dest "Z" (OTHER_MODE "ftp")] in
  (handle_instances_set all_ok self 5 study initial).1 = Ok tt /\
  sent_of (handle_instances_set all_ok self 5 study initial).2 "study-1"
    <> names self.
Proof.
  intros self.
  destruct (unknown_mode_is_retried_not_fatal all_ok self 5 study initial
              study [] (dest "Z" (OTHER_MODE "ftp")) "ftp")
    as (_ & H1 & _ & H2 & _);
    [reflexivity|reflexivity
    |apply list_elem_of_further, list_elem_of_here|reflexivity|].
  split; [exact H1|exact H2].
Defined.

Lemma for_each_stuck {A} (body : A -> IO unit) (x : A) (l : list A) :
  x ∈ l -> (forall tr, (body x tr).1 <> Ok tt) ->
  forall tr, (for_each l body tr).1 <> Ok tt.
Proof.
  intros Hx Hbody. induction l as [|y l IH]; intros tr.
  { by apply elem_of_nil in Hx. }
  simpl. rewrite run_bind.
  apply elem_of_cons in Hx as [<-|Hx].
  - pose proof (Hbody tr) as H.
    destruct (body x tr) as [[[]|e] tr1]; [done|]. discriminate.
  - destruct (body y tr) as [[[]|e] tr1]; [by apply IH|]. discriminate.
Qed.

Lemma oversized_series_never_delivers w s d big :
  forwarder_mode d = DICOM_WEB_SERIES_BY_SERIES ->
  big ∈ series_ids s ->
  (forall tr, 1 * 1024 * 1024 * 1024 < uncompressed_size w tr big) ->
  never_delivers w s d.
Proof.
  intros Hm Hbig Hsize tr. unfold _forward_to_destination. rewrite Hm.
  apply (for_each_stuck _ big); [done|]. clear tr. intros tr.
  pose proof (Hsize (tr ++ [EvSeriesGet big])) as H.
  apply Z.ltb_lt in H.
  unfold series_uncompressed_size, mbind, M_bind, bind, call, gets.
  destruct (call_ok w tr (EvSeriesGet big)); [|discriminate].
  rewrite H. discriminate.
Qed.

(** X8. A set with a series that holds more than 1 GiB, and a destination
    in the mode [DICOM_WEB_SERIES_BY_SERIES]: no dispatch of the set to that
    destination ever succeeds, and a first call of [handle_instances_set]
    returns normally, requests no deletion and schedules a retry with fewer
    aliases recorded than there are destinations. *)
Theorem oversized_series_blocks_deletion w self now s0 st s tr1 d big :
  _status st !! id s0 = None ->
  filter w self s0 (trace st) = (Ok s, tr1) ->
  d ∈ _destinations self ->
  forwarder_mode d = DICOM_WEB_SERIES_BY_SERIES ->
  big ∈ series_ids s ->
  (forall tr, 1 * 1024 * 1024 * 1024 < uncompressed_size w tr big) ->
  (forall tr, (_forward_to_destination w s d tr).1 <> Ok tt)
  /\ (handle_instances_set w self now s0 st).1 = Ok tt
  /\ (forall k ids,
        EvDelete k ids ∉
          new_events (trace st)
            (trace (handle_instances_set w self now s0 st).2))
  /\ exists r',
       _status (handle_instances_set w self now s0 st).2 !! id s0 = Some r'
       /\ retry_count r' = 1
       /\ (length (sent_to_destinations r') < length (_destinations self))%nat.
Proof.
  intros Hnone Hf Hd Hm Hbig Hsize.
  pose proof (oversized_series_never_delivers w s d big Hm Hbig Hsize)
    as Hnever.
  destruct (undeliverable_destination_blocks_deletion w self now s0 st s tr1
              d Hnone Hf Hd Hnever)
    as (Hok & Hdel & r' & Hr' & Hcount & _ & Hlen).
  split; [exact Hnever|]. split; [done|]. split; [done|]. eauto.
Qed.

Lemma oversized_series_blocks_deletion_witness :
  let self := forwarder [dest "W" DICOM_WEB_SERIES_BY_SERIES] in
  (handle_instances_set big_series self 0 study initial).1 = Ok tt /\
  (forall k ids,
     EvDelete k ids ∉
       new_events []
         (trace (handle_instances_set big_series self 0 study initial).2)).
Proof.
  intros self.
  destruct (oversized_series_blocks_deletion big_series self 0 study initial
              study [] (dest "W" DICOM_WEB_SERIES_BY_SERIES) "series-1")
    as (_ & H1 & H2 & _);
    [reflexivity|reflexivity|apply list_elem_of_here|reflexivity
    |apply list_elem_of_here|intros tr; reflexivity|].
  split; [exact H1|exact H2].
Defined.

(** ** Edge cases of a first call *)

(** X9. With no destination configured, a first call that gets through the
    filter ends by requesting the deletion of the set, having sent nothing:
    the empty list [forward] returns is as long as the list of
    destinations. *)
Theorem no_destination_deletes_without_sending w self now s0 st s tr1 :
  _destinations self = [] ->
  _status st !! id s0 = None ->
  filter w self s0 (trace st) = (Ok s, tr1) ->
  exists evs,
    trace (handle_instances_set w self now s0 st).2
      = trace st ++ evs ++ [EvDelete (id s) (instances_ids s)] /\
    Forall (fun e => ~ forward_event e) evs /\
    (handle_instances_set w self now s0 st).1 =
      (delete w s (trace st ++ evs)).1.
Proof.
  intros Hd Hnone Hf.
  rewrite handle_instances_set_first_sight by done.
  set (st0 := {| _status := <[id s0 := new_status]> (_status st);
                 trace := trace st |}).
  assert (_status st0 !! id s0 = Some new_status) as Hr
    by (simpl; apply lookup_insert_eq).
  change (trace st) with (trace st0) in Hf.
  destruct (process_step_run w self s new_status tr1) as (b & e2 & Hp & F2 & _).
  destruct (emits_filter w self s0 (trace st0)) as (e1 & E1 & F1).
  rewrite Hf in E1. simpl in E1. subst tr1.
  assert (forward w self s (sent_to_destinations new_status)
            ((trace st0 ++ e1) ++ e2) = (Ok [], (trace st0 ++ e1) ++ e2))
    as Hfw by (unfold forward; by rewrite Hd).
  rewrite (handle_pipeline_run _ _ now _ _ _ _ _ _ _ _ _ Hr Hf Hp Hfw).
  rewrite Hd. simpl. exists (e1 ++ e2).
  rewrite <- !app_assoc. split; [done|]. split; [|by rewrite app_assoc].
  apply Forall_app. split.
  - eapply Forall_impl; [exact F1|]. intros e. destruct e; simpl; tauto.
  - eapply Forall_impl; [exact F2|]. intros e. destruct e; simpl; tauto.
Qed.

Lemma no_destination_deletes_without_sending_witness :
  exists evs,
    trace (handle_instances_set all_ok (forwarder []) 0 study initial).2
      = [] ++ evs ++ [EvDelete "study-1" ["i1"; "i2"; "i3"]] /\
    Forall (fun e => ~ forward_event e) evs /\
    (handle_instances_set all_ok (forwarder []) 0 study initial).1 =
      (delete all_ok study ([] ++ evs)).1.
Proof.
  apply (no_destination_deletes_without_sending all_ok (forwarder []) 0
           study initial study []); reflexivity.
Defined.

(** X10. When the deletion of the filtered-out instances raises in a first
    call, the exception leaves [handle_instances_set]: nothing is processed,
    sent or deleted, no retry is scheduled, and the fresh record that stays
    behind makes every later call for the set stop at the retry check. *)
Theorem filter_failure_is_fatal w self now now' s0 st e tr1 :
  _status st !! id s0 = None ->
  filter w self s0 (trace st) = (Raise e, tr1) ->
  let out := handle_instances_set w self now s0 st in
  out.1 = Raise ExternalError /\
  _status out.2 !! id s0 = Some new_status /\
  (exists f, _instance_filter self = Some f /\
             trace out.2 =
               trace st ++ [EvDeleteFiltered (id s0) (filtered_out f s0)]) /\
  handle_instances_set w self now' s0 out.2 = (Raise TypeError, out.2).
Proof.
  intros Hnone Hf out. subst out.
  rewrite handle_instances_set_first_sight by done.
  erewrite handle_pipeline_filter_raises by exact Hf. simpl.
  assert (e = ExternalError /\
          exists f, _instance_filter self = Some f /\
            tr1 = trace st ++ [EvDeleteFiltered (id s0) (filtered_out f s0)])
    as [-> (f & Hfilter & ->)].
  { unfold filter in Hf. destruct (_instance_filter self) as [f|];
      [|by rewrite run_ret in Hf].
    rewrite run_bind in Hf. unfold call in Hf.
    destruct (call_ok w (trace st) _); [by rewrite run_ret in Hf|].
    injection Hf as <- <-. eauto. }
  split; [done|]. split; [apply lookup_insert_eq|]. split; [eauto|].
  eapply handle_instances_set_known. simpl. apply lookup_insert_eq.
Qed.

Lemma filter_failure_is_fatal_witness :
  let w := {| call_ok := fun _ _ => false;
              uncompressed_size := fun _ _ => 0 |} in
  let self := {| _destinations := [dest "A" DICOM];
                 _instance_filter := Some (String.eqb "i1");
                 _instance_processor := None |} in
  let out := handle_instances_set w self 0 study initial in
  out.1 = Raise ExternalError /\
  _status out.2 !! "study-1" = Some new_status /\
  handle_instances_set w self 99 study out.2 = (Raise TypeError, out.2).
Proof.
  intros w self out.
  destruct (filter_failure_is_fatal w self 0 99 study initial ExternalError
              [EvDeleteFiltered "study-1" ["i2"; "i3"]])
    as (H1 & H2 & _ & H3); [reflexivity|reflexivity|].
  split; [exact H1|]. split; [exact H2|exact H3].
Defined.

(** X11. When every destination is delivered but the deletion of the set
    raises, a first call of [handle_instances_set] raises too and records
    nothing of the deliveries: the stored list of sent destinations is
    still empty and no retry is scheduled. *)
Theorem delete_failure_records_nothing
  w self now s0 st s tr1 b tr2 sent tr3 :
  _status st !! id s0 = None ->
  filter w self s0 (trace st) = (Ok s, tr1) ->
  process w self s tr1 = (Ok b, tr2) ->
  forward w self s [] tr2 = (Ok sent, tr3) ->
  length sent = length (_destinations self) ->
  call_ok w tr3 (EvDelete (id s) (instances_ids s)) = false ->
  let out := handle_instances_set w self now s0 st in
  out.1 = Raise ExternalError /\
  _status out.2 !! id s0 =
    Some {| processed := b; sent_to_destinations := [];
            retry_count := 0; next_retry := None |}.
Proof.
  intros Hnone Hf Hp Hfw Hlen Hdel out. subst out.
  rewrite handle_instances_set_first_sight by done.
  erewrite handle_pipeline_run;
    [|simpl; apply lookup_insert_eq|exact Hf|exact Hp|exact Hfw].
  apply Nat.eqb_eq in Hlen. rewrite Hlen. unfold delete, call.
  rewrite Hdel. simpl. split; [done|].
  rewrite insert_insert_eq, lookup_insert_eq. done.
Qed.

Lemma delete_failure_records_nothing_witness :
  let w := {| call_ok := fun _ e =>
                match e with EvDelete _ _ => false | _ => true end;
              uncompressed_size := fun _ _ => 0 |} in
  let out := handle_instances_set w (forwarder [dest "A" DICOM]) 0 study
               initial in
  out.1 = Raise ExternalError /\
  _status out.2 !! "study-1" =
    Some {| processed := true; sent_to_destinations := [];
            retry_count := 0; next_retry := None |}.
Proof.
  intros w out.
  apply (delete_failure_records_nothing w (forwarder [dest "A" DICOM]) 0
           study initial study [] true
           [EvProcessInstances "study-1" "anonymize" ["i1"; "i2"; "i3"]]
           ["A"]
           [EvProcessInstances "study-1" "anonymize" ["i1"; "i2"; "i3"];
            EvSend modalities "A" ["i1"; "i2"; "i3"] []]);
    reflexivity.
Defined.

(** X12. A call for one set leaves the records of all the other sets as
    they were, whether it goes through [handle_instances_set] or straight
    through the pipeline. *)
Theorem other_records_are_untouched w self now s st k :
  k <> id s ->
  _status (handle_instances_set w self now s st).2 !! k = _status st !! k /\
  _status (handle_pipeline w self now s st).2 !! k = _status st !! k.
Proof.
  intros Hk. split.
  - destruct (handle_instances_set_status w self now s st)
      as [[_ ->]|(_ & r' & -> & _)]; [done|].
    by rewrite lookup_insert_ne.
  - destruct (handle_pipeline_status w self now s st)
      as [->|(r & r' & _ & -> & _)]; [done|].
    by rewrite lookup_insert_ne.
Qed.

Lemma other_records_are_untouched_witness :
  let st := {| _status := {["study-0" := new_status]}; trace := [] |} in
  _status (handle_instances_set b_fails_once
             (forwarder [dest "B" PEERING]) 0 study st).2 !! "study-0"
    = Some new_status.
Proof.
  intros st.
  destruct (other_records_are_untouched b_fails_once
              (forwarder [dest "B" PEERING]) 0 study st "study-0")
    as [H _]; [discriminate|].
  rewrite H. reflexivity.
Defined.

(** ** At most once *)

Lemma deletions_app k a b :
  deletions k (a ++ b) = (deletions k a + deletions k b)%nat.
Proof. unfold deletions. by rewrite List.filter_app, length_app. Qed.

Lemma deletions_none k evs :
  Forall (fun e => filter_event e \/ process_event e \/ forward_event e) evs ->
  deletions k evs = 0%nat.
Proof.
  unfold deletions. induction 1 as [|e evs He _ IH]; [done|].
  simpl. destruct e; simpl in *; try done. tauto.
Qed.

Lemma applications_none' k evs :
  Forall (fun e => filter_event e \/ forward_event e) evs ->
  applications k evs = 0%nat.
Proof.
  intros H. apply applications_none.
  eapply Forall_impl; [exact H|]. intros e. destruct e; simpl; tauto.
Qed.

(** What the process block adds: nothing, or the one call of the
    processor on the set. *)
Lemma process_step_events w self s r tr1 :
  exists b e2,
    process_step w self s r tr1 = (Ok b, tr1 ++ e2) /\
    (e2 = [] \/
     exists p, e2 = [EvProcessInstances (id s) p (instances_ids s)]).
Proof.
  unfold process_step. destruct (processed r).
  - exists true, []. rewrite run_ret, app_nil_r. auto.
  - destruct (_instance_processor self) as [p|] eqn:Hp.
    + rewrite (process_configured_run w self p s tr1 Hp). eauto 6.
    + unfold process. rewrite Hp, run_ret. exists true, [].
      rewrite app_nil_r. auto.
Qed.

(** The events of one call: none for a set with a record; for a new set, at
    most one application of the processor and one deletion, both for that
    set. *)
Lemma handle_instances_set_events w self now s st :
  exists evs,
    trace (handle_instances_set w self now s st).2 = trace st ++ evs /\
    (is_Some (_status st !! id s) -> evs = []) /\
    forall k,
      (deletions k evs <= if decide (k = id s) then 1 else 0)%nat /\
      (applications k evs <= if decide (k = id s) then 1 else 0)%nat.
Proof.
  destruct (_status st !! id s) as [r|] eqn:Hr.
  { exists []. erewrite handle_instances_set_known by done.
    rewrite app_nil_r. split; [done|]. split; [done|].
    intros k. unfold deletions, applications. simpl.
    destruct (decide (k = id s)); lia. }
  rewrite handle_instances_set_first_sight by done.
  set (st0 := {| _status := <[id s := new_status]> (_status st);
                 trace := trace st |}).
  assert (_status st0 !! id s = Some new_status) as Hr0
    by (simpl; apply lookup_insert_eq).
  destruct (emits_filter w self s (trace st0)) as (e1 & E1 & F1).
  destruct (filter w self s (trace st0)) as [[s'|e] tr1] eqn:Hf;
    simpl in E1; subst tr1.
  2: { exists e1. erewrite handle_pipeline_filter_raises by done. simpl.
       split; [done|]. split; [by intros [? ?]|]. intros k.
       rewrite deletions_none, applications_none'.
       - destruct (decide (k = id s)); lia.
       - eapply Forall_impl; [exact F1|]. tauto.
       - eapply Forall_impl; [exact F1|]. tauto. }
  pose proof (filter_id _ _ _ _ _ _ Hf) as Hid.
  destruct (process_step_events w self s' new_status (trace st0 ++ e1))
    as (b & e2 & Hp & He2).
  destruct (emits_forward w self s' (sent_to_destinations new_status)
              ((trace st0 ++ e1) ++ e2)) as (e3 & E3 & F3).
  destruct (forward w self s' (sent_to_destinations new_status)
              ((trace st0 ++ e1) ++ e2)) as [[sent|e] tr3] eqn:Hfw.
  2: { destruct (forward_run w self s' (sent_to_destinations new_status)
                   ((trace st0 ++ e1) ++ e2)) as (? & ? & E & _).
       rewrite Hfw in E. discriminate. }
  simpl in E3. subst tr3.
  rewrite (handle_pipeline_last_events _ _ now _ _ _ _ _ _ _ _ _
             Hr0 Hf Hp Hfw).
  set (last := if Nat.eqb (length sent) (length (_destinations self))
               then [EvDelete (id s') (instances_ids s')] else []).
  exists (e1 ++ e2 ++ e3 ++ last).
  split; [simpl; by rewrite <- !app_assoc|].
  split; [by intros [? ?]|]. intros k.
  rewrite !deletions_app, !applications_app.
  rewrite (deletions_none k e1), (applications_none' k e1),
    (deletions_none k e3), (applications_none' k e3);
    try (eapply Forall_impl; [eassumption|]; simpl; tauto).
  assert (deletions k e2 = 0 /\
          applications k e2 <= if decide (k = id s) then 1 else 0)%nat
    as [-> Ha].
  { destruct He2 as [->|(p & ->)]; [simpl; split; [done|]|].
    - unfold applications. simpl. destruct (decide (k = id s)); lia.
    - unfold deletions, applications. simpl. split; [done|].
      rewrite Hid. destruct (String.eqb_spec (id s) k) as [<-|Hne]; simpl.
      + rewrite decide_True by done. lia.
      + lia. }
  assert (applications k last = 0 /\
          deletions k last <= if decide (k = id s) then 1 else 0)%nat
    as [-> Hd].
  { subst last. destruct (Nat.eqb _ _); unfold deletions, applications;
      simpl; (split; [done|]).
    - rewrite Hid. destruct (String.eqb_spec (id s) k) as [<-|Hne]; simpl.
      + rewrite decide_True by done. lia.
      + lia.
    - lia. }
  lia.
Qed.

(** X13. Whatever sets are handed to [handle_instances_set], in whatever
    order and with whatever failures, starting from an empty store: for
    each set identity the processor is applied at most once and the
    deletion is requested at most once. *)
Theorem at_most_one_processing_and_deletion w self calls k :
  (applications k (trace (handle_all w self calls initial)) <= 1)%nat /\
  (deletions k (trace (handle_all w self calls initial)) <= 1)%nat.
Proof.
  assert (forall st,
    (forall k, (applications k (trace st) <= 1)%nat /\
               (deletions k (trace st) <= 1)%nat /\
               (_status st !! k = None ->
                applications k (trace st) = 0%nat /\
                deletions k (trace st) = 0%nat)) ->
    forall k, (applications k (trace (handle_all w self calls st)) <= 1)%nat /\
              (deletions k (trace (handle_all w self calls st)) <= 1)%nat)
    as Hgen.
  { induction calls as [|[now s] calls IH]; intros st Hinv k'.
    { destruct (Hinv k') as (? & ? & _). done. }
    simpl. apply IH. clear k'. intros k'.
    destruct (handle_instances_set_events w self now s st)
      as (evs & -> & Hknown & Hcount).
    destruct (Hcount k') as [Hd Ha].
    destruct (Hinv k') as (Ha0 & Hd0 & Hnone).
    rewrite applications_app, deletions_app.
    destruct (handle_instances_set_status w self now s st)
      as [[Hs E]|(Hn & r' & E & _)].
    - rewrite (Hknown Hs) in *. rewrite E.
      unfold applications, deletions in *. simpl. rewrite !Nat.add_0_r.
      auto.
    - rewrite E. destruct (decide (k' = id s)) as [->|Hne].
      + destruct (Hnone Hn) as [-> ->]. simpl.
        split; [done|]. split; [done|].
        rewrite lookup_insert_eq. discriminate.
      + assert (applications k' evs = 0 /\ deletions k' evs = 0)%nat
          as [-> ->] by lia.
        rewrite !Nat.add_0_r, lookup_insert_ne by done. auto. }
  apply Hgen. intros k'. unfold applications, deletions. simpl.
  split; [lia|]. split; [lia|]. done.
Qed.

(** ** Invariants of the status store *)

Lemma record_inv_new_status self : record_inv self new_status.
Proof.
  unfold record_inv, new_status. simpl.
  split; [lia|]. split; [done|]. split; [apply sublist_nil_l|lia].
Qed.

Lemma handle_pipeline_keeps_status_inv w self now s0 st :
  status_inv self st -> status_inv self (handle_pipeline w self now s0 st).2.
Proof.
  intros Hinv.
  destruct (filter w self s0 (trace st)) as [[s|e] tr1] eqn:Hf.
  2: { by erewrite handle_pipeline_filter_raises. }
  destruct (_status st !! id s0) as [r|] eqn:Hr.
  2: { by erewrite handle_pipeline_no_record. }
  destruct (process_step_run w self s r tr1) as (b & e2 & Hp & _).
  destruct (forward_run w self s (sent_to_destinations r) (tr1 ++ e2))
    as (sent & tr3 & Hfw & Hsub & _).
  rewrite (handle_pipeline_run _ _ now _ _ _ _ _ _ _ _ _ Hr Hf Hp Hfw).
  destruct (Hinv _ _ Hr) as (H0 & Hnext & Hsent & Hlen).
  assert (forall r', record_inv self r' ->
            status_inv self {| _status := <[id s0 := r']> (_status st);
                               trace := tr3 |}) as Hput.
  { intros r' Hr' k rk. simpl.
    destruct (decide (id s0 = k)) as [<-|Hne].
    - rewrite lookup_insert_eq. by intros [= <-].
    - rewrite lookup_insert_ne by done. apply Hinv. }
  destruct (Nat.eqb_spec (length sent) (length (_destinations self)))
    as [E|Hne].
  - intros k rk. simpl.
    destruct (decide (id s0 = k)) as [<-|Hne].
    + rewrite lookup_insert_eq. intros [= <-]. by unfold record_inv.
    + rewrite lookup_insert_ne by done. apply Hinv.
  - assert (length sent < length (_destinations self))%nat as Hlt.
    { apply sublist_length in Hsub. unfold names in Hsub.
      rewrite length_map in Hsub. lia. }
    destruct (retry_interval (retry_count r)) as [seconds|e];
      apply Hput; unfold record_inv; simpl.
    + split; [lia|]. split; [split; [lia|discriminate]|]. auto.
    + auto.
Qed.

(** X14. Every record in the store satisfies, before and after any call,
    through [handle_instances_set] or through the pipeline: the retry count
    is not negative, it is zero exactly when no retry is scheduled, the
    recorded aliases are configured aliases in the order of the
    configuration, and a record with a retry count above zero lacks at
    least one destination. *)
Theorem status_invariant_is_kept w self now s st :
  status_inv self st ->
  status_inv self (handle_instances_set w self now s st).2 /\
  status_inv self (handle_pipeline w self now s st).2.
Proof.
  intros Hinv. split; [|by apply handle_pipeline_keeps_status_inv].
  destruct (_status st !! id s) as [r|] eqn:Hr.
  - by erewrite handle_instances_set_known.
  - rewrite handle_instances_set_first_sight by done.
    apply handle_pipeline_keeps_status_inv.
    intros k rk. simpl. destruct (decide (id s = k)) as [<-|Hne].
    + rewrite lookup_insert_eq. intros [= <-]. apply record_inv_new_status.
    + rewrite lookup_insert_ne by done. apply Hinv.
Qed.

Lemma status_invariant_is_kept_witness :
  status_inv (forwarder [dest "A" DICOM; dest "B" PEERING])
    (handle_instances_set b_fails_once
       (forwarder [dest "A" DICOM; dest "B" PEERING]) 0 study initial).2.
Proof.
  apply (status_invariant_is_kept b_fails_once
           (forwarder [dest "A" DICOM; dest "B" PEERING]) 0 study initial).
  intros k r H. vm_compute in H. discriminate.
Defined.

(** ** The retry schedule *)

(** X15. A run of the pipeline in which [forward] returns fewer aliases
    than there are destinations returns normally, stores the returned list,
    counts one more retry and schedules the next one at [now] plus the
    interval of the old retry count, between one minute and one hour
    later. *)
Theorem failed_round_schedules_retry
  w self now s0 st r s tr1 b tr2 sent tr3 :
  _status st !! id s0 = Some r ->
  0 <= retry_count r ->
  filter w self s0 (trace st) = (Ok s, tr1) ->
  process_step w self s r tr1 = (Ok b, tr2) ->
  forward w self s (sent_to_destinations r) tr2 = (Ok sent, tr3) ->
  length sent <> length (_destinations self) ->
  exists seconds,
    retry_interval (retry_count r) = Ok seconds /\
    60 <= seconds <= 3600 /\
    handle_pipeline w self now s0 st =
      (Ok tt,
       {| _status :=
            <[id s0 := {| processed := b; sent_to_destinations := sent;
                          retry_count := retry_count r + 1;
                          next_retry :=
                            Some (now + seconds * 1000000) |}]> (_status st);
          trace := tr3 |}).
Proof.
  intros Hr H0 Hf Hp Hfw Hlen.
  rewrite (handle_pipeline_run _ _ now _ _ _ _ _ _ _ _ _ Hr Hf Hp Hfw).
  apply Nat.eqb_neq in Hlen. rewrite Hlen.
  destruct (retry_interval_cases (retry_count r) H0)
    as [[_ R]|[[_ R]|[[_ R]|[[_ R]|[_ R]]]]];
    rewrite R; eexists; (split; [reflexivity|]); (split; [lia|]);
    reflexivity.
Qed.

Lemma failed_round_schedules_retry_witness :
  let self := forwarder [dest "A" DICOM; dest "B" PEERING] in
  let r := {| processed := true; sent_to_destinations := ["A"];
              retry_count := 3; next_retry := Some 10 |} in
  let st := {| _status := {["study-1" := r]}; trace := [] |} in
  exists seconds,
    retry_interval 3 = Ok seconds /\ 60 <= seconds <= 3600 /\
    handle_pipeline peers_down self 20 study st =
      (Ok tt,
       {| _status :=
            <["study-1" := {| processed := true;
                              sent_to_destinations := ["A"];
                              retry_count := 3 + 1;
                              next_retry := Some (20 + seconds * 1000000) |}]>
              (_status st);
          trace := [EvSend peers "B" ["i1"; "i2"; "i3"] []] |}).
Proof.
  intros self r st.
  apply (failed_round_schedules_retry peers_down self 20 study st r study
           [] true [] ["A"] [EvSend peers "B" ["i1"; "i2"; "i3"] []]).
  - reflexivity.
  - simpl. lia.
  - reflexivity.
  - reflexivity.
  - reflexivity.
  - simpl. lia.
Defined.

(** ** Series after series *)





(** * The HL7 worklist parser *)

(** ** Splitting and joining *)

Lemma hl7_split_nonempty sep s : Hl7.split sep s <> [].
Proof.
  destruct s as [|c s]; simpl; [done|].
  destruct (decide (c = sep)); [done|]. by destruct (Hl7.split sep s).
Qed.

Lemma hl7_join_split sep s : Hl7.join [sep] (Hl7.split sep s) = s.
Proof.
  induction s as [|c s IH]; [done|]. simpl.
  pose proof (hl7_split_nonempty sep s) as Hne.
  destruct (decide (c = sep)) as [->|Hc].
  - simpl. destruct (Hl7.split sep s) as [|p ps]; [done|].
    simpl in *. by rewrite IH.
  - destruct (Hl7.split sep s) as [|p ps]; [done|].
    destruct ps as [|q ps]; simpl in *; by rewrite <- IH.
Qed.

Lemma hl7_split_no_sep sep s :
  Forall (fun p => sep ∉ p) (Hl7.split sep s).
Proof.
  induction s as [|c s IH]; simpl.
  - repeat constructor. apply not_elem_of_nil.
  - destruct (decide (c = sep)) as [->|Hc].
    + constructor; [apply not_elem_of_nil|done].
    + destruct (Hl7.split sep s) as [|p ps].
      * repeat constructor. rewrite list_elem_of_singleton. congruence.
      * apply Forall_cons in IH as [Hp Hps]. constructor; [|done].
        rewrite elem_of_cons. intros [E|E]; [congruence|done].
Qed.

Lemma hl7_split_whole sep p : sep ∉ p -> Hl7.split sep p = [p].
Proof.
  induction p as [|c p IH]; intros Hp; [done|]. simpl.
  apply not_elem_of_cons in Hp as [Hc Hp].
  destruct (decide (c = sep)); [congruence|]. by rewrite IH.
Qed.

Lemma hl7_split_app sep p r :
  sep ∉ p -> Hl7.split sep (p ++ sep :: r) = p :: Hl7.split sep r.
Proof.
  induction p as [|c p IH]; intros Hp; simpl.
  - by rewrite decide_True.
  - apply not_elem_of_cons in Hp as [Hc Hp].
    destruct (decide (c = sep)); [congruence|]. by rewrite IH.
Qed.

Lemma hl7_split_join sep l :
  l <> [] -> Forall (fun p => sep ∉ p) l ->
  Hl7.split sep (Hl7.join [sep] l) = l.
Proof.
  induction l as [|p l IH]; intros Hne Hall; [done|].
  apply Forall_cons in Hall as [Hp Hl].
  destruct l as [|q l]; simpl.
  - by apply hl7_split_whole.
  - rewrite hl7_split_app by done. f_equal. by apply IH.
Qed.

Lemma hl7_truncate_name_components name :
  Hl7.split 94 (Hl7.truncate_name name) = take 5 (Hl7.split 94 name).
Proof.
  unfold Hl7.truncate_name. change (Hl7.lit "^") with [94%N].
  apply hl7_split_join.
  - pose proof (hl7_split_nonempty 94 name).
    by destruct (Hl7.split 94 name).
  - apply Forall_take, hl7_split_no_sep.
Qed.

Lemma hl7_truncate_name_short name :
  (length (Hl7.split 94 name) <= 5)%nat -> Hl7.truncate_name name = name.
Proof.
  intros H. unfold Hl7.truncate_name. change (Hl7.lit "^") with [94%N].
  rewrite take_ge by done. apply hl7_join_split.
Qed.

(** ** The steps of [parse] and the keys they write *)

Lemma hl7_base_lookup (vfh : gmap string (option Hl7.pystr)) k :
  ((Hl7.of_hl7 <$> vfh) ∪ Hl7.defaults) !! k =
  match vfh !! k with
  | Some o => Some (Hl7.of_hl7 o)
  | None => Hl7.defaults !! k
  end.
Proof.
  rewrite lookup_union, lookup_fmap.
  destruct (vfh !! k); simpl; [|by rewrite (left_id None _)].
  by destruct (Hl7.defaults !! k).
Qed.

Lemma hl7_set_patient_name_frame v v' k :
  Hl7.set_patient_name v = inr v' -> k <> "PatientName" -> v' !! k = v !! k.
Proof.
  unfold Hl7.set_patient_name.
  destruct (v !! "PatientName") as [[]|]; try discriminate.
  intros [= <-] Hk. by rewrite lookup_insert_ne.
Qed.

Lemma hl7_set_patient_sex_frame v v' k :
  Hl7.set_patient_sex v = inr v' -> k <> "PatientSex" -> v' !! k = v !! k.
Proof.
  unfold Hl7.set_patient_sex.
  destruct (v !! "_sex") as [sex|]; [|discriminate].
  repeat (destruct (_ || _) || destruct (bool_decide _));
    intros [= <-] Hk; try done; by rewrite lookup_insert_ne.
Qed.

Lemma hl7_set_pregnancy_status_frame v v' k :
  Hl7.set_pregnancy_status v = inr v' -> k <> "PregnancyStatus" ->
  v' !! k = v !! k.
Proof.
  unfold Hl7.set_pregnancy_status.
  destruct (Hl7.get v "_ambulatoryStatus") as [|status|]; try discriminate.
  - by intros [= <-].
  - destruct (Hl7.contains _ _); intros [= <-] Hk; [|done].
    by rewrite lookup_insert_ne.
Qed.

Lemma hl7_read_observation_frame upper v seg k :
  k <> "PatientWeight" -> k <> "PatientHeight" ->
  Hl7.read_observation upper v seg !! k = v !! k.
Proof.
  intros H1 H2. unfold Hl7.read_observation.
  destruct (Hl7.contains (Hl7.lit "BODY WEIGHT") _),
    (Hl7.contains (Hl7.lit "BODY HEIGHT") _);
    by rewrite ?lookup_insert_ne.
Qed.

Lemma hl7_read_observations_frame upper obx v k :
  k <> "PatientWeight" -> k <> "PatientHeight" ->
  Hl7.read_observations upper obx v !! k = v !! k.
Proof.
  intros H1 H2. destruct obx as [segs|]; [|done]. simpl.
  revert v. induction segs as [|seg segs IH]; intros v; [done|].
  simpl. rewrite IH. by apply hl7_read_observation_frame.
Qed.

Lemma hl7_set_character_set_frame v k :
  k <> "SpecificCharacterSet" -> Hl7.set_character_set v !! k = v !! k.
Proof.
  intros Hk. unfold Hl7.set_character_set.
  destruct (_ || _); [|done]. by rewrite lookup_insert_ne.
Qed.

Lemma hl7_set_start_date_time_frame v v' k :
  Hl7.set_start_date_time v = inr v' ->
  k <> "ScheduledProcedureStepStartDate" ->
  k <> "ScheduledProcedureStepStartTime" ->
  v' !! k = v !! k.
Proof.
  unfold Hl7.set_start_date_time.
  destruct (Hl7.get v "_scheduledProcedureStepStartDateTime") as [|dt|];
    try discriminate.
  - by intros [= <-].
  - destruct (Nat.eqb (length dt) 12); [|destruct (Nat.eqb (length dt) 14)];
      intros [= <-] H1 H2; by rewrite ?lookup_insert_ne.
Qed.

Lemma hl7_set_requesting_physician_frame v k :
  k <> "RequestingPhysician" ->
  Hl7.set_requesting_physician v !! k = v !! k.
Proof.
  intros Hk. unfold Hl7.set_requesting_physician.
  destruct (negb _); [by rewrite lookup_insert_ne|].
  destruct (negb _); [by rewrite lookup_insert_ne|done].
Qed.

(** A successful [parse], step by step. *)
Lemma hl7_parse_steps upper vfh obx values :
  Hl7.parse upper vfh obx = inr values ->
  exists v1 v2 v3 v6,
    Hl7.set_patient_name ((Hl7.of_hl7 <$> vfh) ∪ Hl7.defaults) = inr v1 /\
    Hl7.set_patient_sex v1 = inr v2 /\
    Hl7.set_pregnancy_status v2 = inr v3 /\
    Hl7.set_start_date_time
      (Hl7.set_character_set (Hl7.read_observations upper obx v3)) = inr v6 /\
    values = Hl7.set_requesting_physician v6.
Proof.
  unfold Hl7.parse, Hl7.and_then.
  destruct (Hl7.set_patient_name _) as [|v1] eqn:E1; [discriminate|].
  destruct (Hl7.set_patient_sex v1) as [|v2] eqn:E2; [discriminate|].
  destruct (Hl7.set_pregnancy_status v2) as [|v3] eqn:E3; [discriminate|].
  destruct (Hl7.set_start_date_time _) as [|v6] eqn:E6; [discriminate|].
  intros [= <-]. exists v1, v2, v3, v6. auto.
Qed.

Ltac hl7_through E2 E3 E6 :=
  rewrite ?hl7_set_requesting_physician_frame by done;
  rewrite ?(hl7_set_start_date_time_frame _ _ _ E6) by done;
  rewrite ?hl7_set_character_set_frame by done;
  rewrite ?hl7_read_observations_frame by done;
  rewrite ?(hl7_set_pregnancy_status_frame _ _ _ E3) by done;
  rewrite ?(hl7_set_patient_sex_frame _ _ _ E2) by done.

(** The name the inherited parser found, when [set_patient_name] passes. *)
Lemma hl7_set_patient_name_inv vfh v1 :
  Hl7.set_patient_name ((Hl7.of_hl7 <$> vfh) ∪ Hl7.defaults) = inr v1 ->
  exists name,
    vfh !! "PatientName" = Some (Some name) /\
    v1 = <["PatientName" := Hl7.VStr (Hl7.truncate_name name)]>
           ((Hl7.of_hl7 <$> vfh) ∪ Hl7.defaults).
Proof.
  unfold Hl7.set_patient_name. rewrite hl7_base_lookup.
  destruct (vfh !! "PatientName") as [[name|]|]; simpl.
  - intros [= <-]. eauto.
  - discriminate.
  - change (Hl7.defaults !! "PatientName") with (@None Hl7.pyv).
    discriminate.
Qed.

(** X17. When [parse] succeeds, the patient name of the result is made of
    the first five [^]-separated components of the name found in the
    message, joined again: a name of five components or fewer is kept as it
    is. *)
Theorem hl7_patient_name_keeps_first_five_components
  upper vfh obx values :
  Hl7.parse upper vfh obx = inr values ->
  exists name,
    vfh !! "PatientName" = Some (Some name) /\
    values !! "PatientName" = Some (Hl7.VStr (Hl7.truncate_name name)) /\
    Hl7.split 94 (Hl7.truncate_name name) = take 5 (Hl7.split 94 name) /\
    ((length (Hl7.split 94 name) <= 5)%nat ->
     values !! "PatientName" = Some (Hl7.VStr name)).
Proof.
  intros H. apply hl7_parse_steps in H
    as (v1 & v2 & v3 & v6 & E1 & E2 & E3 & E6 & ->).
  apply hl7_set_patient_name_inv in E1 as (name & Hname & ->).
  exists name. split; [done|].
  assert (Hl7.set_requesting_physician v6 !! "PatientName"
          = Some (Hl7.VStr (Hl7.truncate_name name))) as Hv.
  { hl7_through E2 E3 E6. apply lookup_insert_eq. }
  split; [done|]. split; [apply hl7_truncate_name_components|].
  intros Hlen. by rewrite Hv, hl7_truncate_name_short.
Qed.

Lemma hl7_patient_name_keeps_first_five_components_witness :
  let vfh : gmap string (option Hl7.pystr) :=
    <["PatientName" := Some (Hl7.lit "VANILLE^LAURA^^^Mme^^L")]>
      (<["_sex" := Some (Hl7.lit "F")]> ∅) in
  exists values name,
    Hl7.parse (fun s => s) vfh None = inr values /\
    vfh !! "PatientName" = Some (Some name) /\
    values !! "PatientName" = Some (Hl7.VStr (Hl7.truncate_name name)) /\
    Hl7.truncate_name name = Hl7.lit "VANILLE^LAURA^^^Mme".
Proof.
  intros vfh.
  destruct (Hl7.parse (fun s => s) vfh None) as [e|values] eqn:E;
    [vm_compute in E; discriminate|].
  destruct (hl7_patient_name_keeps_first_five_components
              (fun s => s) vfh None values E) as (name & H1 & H2 & _).
  exists values, name. split; [done|]. split; [done|]. split; [done|].
  vm_compute in H1. injection H1 as <-. reflexivity.
Defined.

(** An entry the steps do not write comes from the message, or is absent. *)
Lemma hl7_get_from_message vfh (v : gmap string Hl7.pyv) k :
  v !! k = ((Hl7.of_hl7 <$> vfh) ∪ Hl7.defaults) !! k ->
  Hl7.defaults !! k = None ->
  Hl7.get v k = match vfh !! k with
                | Some o => Hl7.of_hl7 o
                | None => Hl7.VNone
                end.
Proof.
  intros Hv Hd. unfold Hl7.get. rewrite Hv, hl7_base_lookup, Hd.
  by destruct (vfh !! k).
Qed.

Lemma hl7_of_hl7_not_int o n : Hl7.of_hl7 o <> Hl7.VInt n.
Proof. by destruct o. Qed.

(** X18. [parse] raises [KeyError] when the inherited parser returned no
    entry for the patient name, [AttributeError] when that entry is [None],
    [KeyError] again when there is a name but no [_sex] entry; with a name
    and a [_sex] entry it returns a dictionary. *)
Theorem hl7_parse_needs_name_and_sex upper vfh obx :
  (vfh !! "PatientName" = None ->
   Hl7.parse upper vfh obx = inl (Hl7.KeyError "PatientName")) /\
  (vfh !! "PatientName" = Some None ->
   Hl7.parse upper vfh obx = inl Hl7.AttributeError) /\
  (forall name, vfh !! "PatientName" = Some (Some name) ->
     vfh !! "_sex" = None ->
     Hl7.parse upper vfh obx = inl (Hl7.KeyError "_sex")) /\
  (forall name, vfh !! "PatientName" = Some (Some name) ->
     is_Some (vfh !! "_sex") ->
     exists values, Hl7.parse upper vfh obx = inr values).
Proof.
  set (v0 := (Hl7.of_hl7 <$> vfh) ∪ Hl7.defaults).
  assert (forall name, vfh !! "PatientName" = Some (Some name) ->
            Hl7.set_patient_name v0 =
            inr (<["PatientName" := Hl7.VStr (Hl7.truncate_name name)]> v0))
    as Hname.
  { intros name H. unfold Hl7.set_patient_name. subst v0.
    by rewrite hl7_base_lookup, H. }
  split; [|split; [|split]].
  - intros H. unfold Hl7.parse, Hl7.set_patient_name. fold v0. subst v0.
    rewrite hl7_base_lookup, H.
    change (Hl7.defaults !! "PatientName") with (@None Hl7.pyv). done.
  - intros H. unfold Hl7.parse, Hl7.set_patient_name. fold v0. subst v0.
    by rewrite hl7_base_lookup, H.
  - intros name H Hsex. unfold Hl7.parse. fold v0. rewrite (Hname _ H).
    simpl. unfold Hl7.set_patient_sex.
    rewrite lookup_insert_ne by done. subst v0.
    rewrite hl7_base_lookup, Hsex.
    change (Hl7.defaults !! "_sex") with (@None Hl7.pyv). done.
  - intros name H [sex Hsex]. unfold Hl7.parse. fold v0.
    rewrite (Hname _ H). simpl.
    destruct (Hl7.set_patient_sex _) as [e|v2] eqn:E2.
    { unfold Hl7.set_patient_sex in E2.
      rewrite lookup_insert_ne in E2 by done. subst v0.
      rewrite hl7_base_lookup, Hsex in E2.
      repeat (destruct (_ || _) || destruct (bool_decide _));
        discriminate. }
    simpl.
    assert (forall k, k <> "PatientName" -> k <> "PatientSex" ->
                      v2 !! k = v0 !! k) as Hv2.
    { intros k H1 H2. rewrite (hl7_set_patient_sex_frame _ _ _ E2) by done.
      by rewrite lookup_insert_ne. }
    destruct (Hl7.set_pregnancy_status v2) as [e|v3] eqn:E3.
    { unfold Hl7.set_pregnancy_status in E3.
      rewrite (hl7_get_from_message vfh) in E3; [|by apply Hv2|done].
      destruct (vfh !! "_ambulatoryStatus") as [[status|]|];
        simpl in E3; try discriminate.
      destruct (Hl7.contains _ _); discriminate. }
    simpl.
    destruct (Hl7.set_start_date_time _) as [e|v6] eqn:E6; [|simpl; eauto].
    unfold Hl7.set_start_date_time in E6.
    rewrite (hl7_get_from_message vfh) in E6; [| |done].
    + destruct (vfh !! "_scheduledProcedureStepStartDateTime")
        as [[dt|]|]; simpl in E6; try discriminate.
      destruct (Nat.eqb (length dt) 12);
        [|destruct (Nat.eqb (length dt) 14)]; discriminate.
    + rewrite hl7_set_character_set_frame by done.
      rewrite hl7_read_observations_frame by done.
      rewrite (hl7_set_pregnancy_status_frame _ _ _ E3) by done.
      by apply Hv2.
Qed.

Lemma hl7_parse_needs_name_and_sex_witness :
  Hl7.parse (fun s => s) (<["_sex" := Some (Hl7.lit "F")]> ∅) None
    = inl (Hl7.KeyError "PatientName") /\
  Hl7.parse (fun s => s)
    (<["PatientName" := None]> (<["_sex" := Some (Hl7.lit "F")]> ∅)) None
    = inl Hl7.AttributeError /\
  Hl7.parse (fun s => s) (<["PatientName" := Some (Hl7.lit "DOE^J")]> ∅) None
    = inl (Hl7.KeyError "_sex").
Proof.
  split; [|split].
  - destruct (hl7_parse_needs_name_and_sex (fun s => s)
                (<["_sex" := Some (Hl7.lit "F")]> ∅) None) as (H & _).
    apply H. reflexivity.
  - destruct (hl7_parse_needs_name_and_sex (fun s => s)
                (<["PatientName" := None]>
                   (<["_sex" := Some (Hl7.lit "F")]> ∅)) None)
      as (_ & H & _).
    apply H. reflexivity.
  - destruct (hl7_parse_needs_name_and_sex (fun s => s)
                (<["PatientName" := Some (Hl7.lit "DOE^J")]> ∅) None)
      as (_ & _ & H & _).
    apply (H (Hl7.lit "DOE^J")); reflexivity.
Defined.

(** X19. When [parse] succeeds, the patient sex of the result follows the
    [_sex] entry of the message: [None], [M] and [F] are copied, [U] gives
    [None], [A] and [N] give [O]; for any other code [parse] writes no
    patient sex at all. *)
Theorem hl7_patient_sex_mapping upper vfh obx values :
  Hl7.parse upper vfh obx = inr values ->
  exists sex,
    vfh !! "_sex" = Some sex /\
    (sex = None \/ sex = Some (Hl7.lit "M") \/ sex = Some (Hl7.lit "F") ->
     values !! "PatientSex" = Some (Hl7.of_hl7 sex)) /\
    (sex = Some (Hl7.lit "U") ->
     values !! "PatientSex" = Some Hl7.VNone) /\
    (sex = Some (Hl7.lit "A") \/ sex = Some (Hl7.lit "N") ->
     values !! "PatientSex" = Some (Hl7.VStr (Hl7.lit "O"))) /\
    (sex <> None -> sex <> Some (Hl7.lit "M") -> sex <> Some (Hl7.lit "F") ->
     sex <> Some (Hl7.lit "U") -> sex <> Some (Hl7.lit "A") ->
     sex <> Some (Hl7.lit "N") ->
     values !! "PatientSex" = Hl7.of_hl7 <$> (vfh !! "PatientSex")).
Proof.
  intros H. apply hl7_parse_steps in H
    as (v1 & v2 & v3 & v6 & E1 & E2 & E3 & E6 & ->).
  apply hl7_set_patient_name_inv in E1 as (name & Hname & ->).
  set (v0 := (Hl7.of_hl7 <$> vfh) ∪ Hl7.defaults) in *.
  assert (Hl7.set_requesting_physician v6 !! "PatientSex"
          = v2 !! "PatientSex") as ->.
  { rewrite hl7_set_requesting_physician_frame by done.
    rewrite (hl7_set_start_date_time_frame _ _ _ E6) by done.
    rewrite hl7_set_character_set_frame by done.
    rewrite hl7_read_observations_frame by done.
    by rewrite (hl7_set_pregnancy_status_frame _ _ _ E3). }
  unfold Hl7.set_patient_sex in E2.
  rewrite lookup_insert_ne in E2 by done.
  unfold v0 in E2. rewrite hl7_base_lookup in E2. fold v0 in E2.
  destruct (vfh !! "_sex") as [sex|] eqn:Hsex;
    [|change (Hl7.defaults !! "_sex") with (@None Hl7.pyv) in E2;
      discriminate].
  exists sex. split; [done|].
  assert (<["PatientName" := Hl7.VStr (Hl7.truncate_name name)]> v0
            !! "PatientSex" = Hl7.of_hl7 <$> (vfh !! "PatientSex")) as Hold.
  { rewrite lookup_insert_ne by done. unfold v0.
    rewrite hl7_base_lookup. by destruct (vfh !! "PatientSex"). }
  split; [|split; [|split]].
  - intros Hs.
    rewrite orb_true_intro in E2.
    + injection E2 as <-. apply lookup_insert_eq.
    + destruct Hs as [-> | [-> | ->]]; simpl; auto.
  - intros ->. simpl in E2. injection E2 as <-. apply lookup_insert_eq.
  - intros [-> | ->]; simpl in E2; injection E2 as <-;
      apply lookup_insert_eq.
  - intros H1 H2 H3 H4 H5 H6.
    destruct sex as [s|]; [|done]. simpl in E2.
    rewrite !bool_decide_eq_false_2 in E2 by congruence.
    simpl in E2. injection E2 as <-. exact Hold.
Qed.

Lemma hl7_patient_sex_mapping_witness :
  let vfh : gmap string (option Hl7.pystr) :=
    <["PatientName" := Some (Hl7.lit "DOE^JANE")]>
      (<["_sex" := Some (Hl7.lit "N")]> ∅) in
  exists values,
    Hl7.parse (fun s => s) vfh None = inr values /\
    values !! "PatientSex" = Some (Hl7.VStr (Hl7.lit "O")).
Proof.
  intros vfh.
  destruct (Hl7.parse (fun s => s) vfh None) as [e|values] eqn:E;
    [vm_compute in E; discriminate|].
  destruct (hl7_patient_sex_mapping (fun s => s) vfh None values E)
    as (sex & Hsex & _ & _ & H & _).
  exists values. split; [done|]. apply H. right.
  vm_compute in Hsex. by injection Hsex as <-.
Defined.

(** X20. When [parse] succeeds on a message with a scheduled start date
    and time, the start date of the result is made of its first eight
    characters; a start time is written for 12 and for 14 characters only,
    has six characters, and with the date gives back the 14 characters, or
    the 12 characters followed by [00]. *)
Theorem hl7_start_date_and_time upper vfh obx values (dt : Hl7.pystr) :
  Hl7.parse upper vfh obx = inr values ->
  vfh !! "_scheduledProcedureStepStartDateTime" = Some (Some dt) ->
  values !! "ScheduledProcedureStepStartDate" = Some (Hl7.VStr (take 8 dt)) /\
  (length dt = 14%nat ->
   exists t, values !! "ScheduledProcedureStepStartTime" = Some (Hl7.VStr t)
             /\ take 8 dt ++ t = dt /\ length t = 6%nat) /\
  (length dt = 12%nat ->
   exists t, values !! "ScheduledProcedureStepStartTime" = Some (Hl7.VStr t)
             /\ take 8 dt ++ t = dt ++ Hl7.lit "00" /\ length t = 6%nat) /\
  (length dt <> 12%nat -> length dt <> 14%nat ->
   values !! "ScheduledProcedureStepStartTime"
     = Hl7.of_hl7 <$> (vfh !! "ScheduledProcedureStepStartTime")).
Proof.
  intros H Hdt. apply hl7_parse_steps in H
    as (v1 & v2 & v3 & v6 & E1 & E2 & E3 & E6 & ->).
  apply hl7_set_patient_name_inv in E1 as (name & Hname & ->).
  set (v0 := (Hl7.of_hl7 <$> vfh) ∪ Hl7.defaults) in *.
  set (v5 := Hl7.set_character_set (Hl7.read_observations upper obx v3))
    in *.
  assert (forall k, k <> "PatientName" -> k <> "PatientSex" ->
            k <> "PregnancyStatus" -> k <> "PatientWeight" ->
            k <> "PatientHeight" -> k <> "SpecificCharacterSet" ->
            v5 !! k = v0 !! k) as Hv5.
  { intros k ? ? ? ? ? ?. unfold v5.
    rewrite hl7_set_character_set_frame by done.
    rewrite hl7_read_observations_frame by done.
    rewrite (hl7_set_pregnancy_status_frame _ _ _ E3) by done.
    rewrite (hl7_set_patient_sex_frame _ _ _ E2) by done.
    by rewrite lookup_insert_ne. }
  rewrite !hl7_set_requesting_physician_frame by done.
  unfold Hl7.set_start_date_time in E6.
  rewrite (hl7_get_from_message vfh) in E6; [|by apply Hv5|done].
  assert (v5 !! "ScheduledProcedureStepStartTime"
          = Hl7.of_hl7 <$> (vfh !! "ScheduledProcedureStepStartTime"))
    as Hold.
  { rewrite Hv5 by done. unfold v0. rewrite hl7_base_lookup.
    by destruct (vfh !! "ScheduledProcedureStepStartTime"). }
  unfold Hl7.pystr in *. rewrite Hdt in E6. simpl in E6.
  destruct (Nat.eqb_spec (length dt) 12) as [L12|N12];
    [|destruct (Nat.eqb_spec (length dt) 14) as [L14|N14]];
    injection E6 as <-.
  - split; [by rewrite lookup_insert_ne, lookup_insert_eq|].
    split; [intros; exfalso; lia|]. split; [|intros; exfalso; lia].
    intros _.
    eexists. rewrite lookup_insert_eq. split; [done|].
    rewrite (take_ge dt 12) by lia. rewrite app_assoc, take_drop.
    split; [done|]. rewrite length_app, length_drop. simpl. lia.
  - split; [by rewrite lookup_insert_ne, lookup_insert_eq|].
    split; [|split; intros; exfalso; lia]. intros _.
    eexists. rewrite lookup_insert_eq. split; [done|].
    rewrite (take_ge dt 14) by lia. rewrite take_drop.
    split; [done|]. rewrite length_drop. lia.
  - split; [by rewrite lookup_insert_eq|].
    split; [intros; exfalso; lia|]. split; [intros; exfalso; lia|].
    intros _ _. by rewrite lookup_insert_ne.
Qed.

Lemma hl7_start_date_and_time_witness :
  let vfh : gmap string (option Hl7.pystr) :=
    <["PatientName" := Some (Hl7.lit "DOE^JANE")]>
      (<["_sex" := Some (Hl7.lit "F")]>
         (<["_scheduledProcedureStepStartDateTime" :=
              Some (Hl7.lit "201709141537")]> ∅)) in
  exists values,
    Hl7.parse (fun s => s) vfh None = inr values /\
    values !! "ScheduledProcedureStepStartDate"
      = Some (Hl7.VStr (Hl7.lit "20170914")) /\
    exists t, values !! "ScheduledProcedureStepStartTime"
                = Some (Hl7.VStr t) /\
              Hl7.lit "20170914" ++ t = Hl7.lit "20170914153700".
Proof.
  intros vfh.
  destruct (Hl7.parse (fun s => s) vfh None) as [e|values] eqn:E;
    [vm_compute in E; discriminate|].
  destruct (hl7_start_date_and_time (fun s => s) vfh None values
              (Hl7.lit "201709141537") E) as (H1 & _ & H2 & _);
    [reflexivity|].
  exists values. split; [done|]. split; [exact H1|].
  destruct (H2 eq_refl) as (t & Ht & Hcat & _). exists t. auto.
Defined.

(** X21. When [parse] succeeds, the requesting physician of the result is
    the one of the OBR segment if the message has one; failing that, the
    one of the ORC segment; failing both, whatever the inherited parser
    returned under that name, [None] by default. *)
Theorem hl7_requesting_physician_precedence upper vfh obx values :
  Hl7.parse upper vfh obx = inr values ->
  let from_message k :=
    match vfh !! k with
    | Some o => Hl7.of_hl7 o
    | None => Hl7.VNone
    end in
  values !! "RequestingPhysician" =
  Some (if decide (from_message "_requestingPhysicianOBR" = Hl7.VNone)
        then if decide (from_message "_requestingPhysicianORC" = Hl7.VNone)
             then from_message "RequestingPhysician"
             else from_message "_requestingPhysicianORC"
        else from_message "_requestingPhysicianOBR").
Proof.
  intros H from_message. apply hl7_parse_steps in H
    as (v1 & v2 & v3 & v6 & E1 & E2 & E3 & E6 & ->).
  apply hl7_set_patient_name_inv in E1 as (name & Hname & ->).
  set (v0 := (Hl7.of_hl7 <$> vfh) ∪ Hl7.defaults) in *.
  assert (forall k, k <> "PatientName" -> k <> "PatientSex" ->
            k <> "PregnancyStatus" -> k <> "PatientWeight" ->
            k <> "PatientHeight" -> k <> "SpecificCharacterSet" ->
            k <> "ScheduledProcedureStepStartDate" ->
            k <> "ScheduledProcedureStepStartTime" ->
            v6 !! k = v0 !! k) as Hv6.
  { intros k ? ? ? ? ? ? ? ?.
    rewrite (hl7_set_start_date_time_frame _ _ _ E6) by done.
    rewrite hl7_set_character_set_frame by done.
    rewrite hl7_read_observations_frame by done.
    rewrite (hl7_set_pregnancy_status_frame _ _ _ E3) by done.
    rewrite (hl7_set_patient_sex_frame _ _ _ E2) by done.
    by rewrite lookup_insert_ne. }
  assert (Hl7.get v6 "_requestingPhysicianOBR"
          = from_message "_requestingPhysicianOBR") as Hobr
    by (apply hl7_get_from_message; [by apply Hv6|done]).
  assert (Hl7.get v6 "_requestingPhysicianORC"
          = from_message "_requestingPhysicianORC") as Horc
    by (apply hl7_get_from_message; [by apply Hv6|done]).
  assert (v6 !! "RequestingPhysician"
          = Some (from_message "RequestingPhysician")) as Hrp.
  { rewrite Hv6 by done. unfold v0, from_message.
    rewrite hl7_base_lookup. by destruct (vfh !! "RequestingPhysician"). }
  unfold Hl7.set_requesting_physician. rewrite Hobr, Horc.
  destruct (decide (from_message "_requestingPhysicianOBR" = Hl7.VNone))
    as [Eo|No].
  - rewrite bool_decide_eq_true_2 by done. simpl.
    destruct (decide (from_message "_requestingPhysicianORC" = Hl7.VNone))
      as [Ec|Nc].
    + by rewrite bool_decide_eq_true_2.
    + rewrite bool_decide_eq_false_2 by done. simpl.
      apply lookup_insert_eq.
  - rewrite bool_decide_eq_false_2 by done. simpl. apply lookup_insert_eq.
Qed.

Lemma hl7_requesting_physician_precedence_witness :
  let vfh : gmap string (option Hl7.pystr) :=
    <["PatientName" := Some (Hl7.lit "DOE^JANE")]>
      (<["_sex" := Some (Hl7.lit "F")]>
         (<["_requestingPhysicianOBR" := None]>
            (<["_requestingPhysicianORC" := Some (Hl7.lit "DOC^ORC")]> ∅))) in
  exists values,
    Hl7.parse (fun s => s) vfh None = inr values /\
    values !! "RequestingPhysician" = Some (Hl7.VStr (Hl7.lit "DOC^ORC")).
Proof.
  intros vfh.
  destruct (Hl7.parse (fun s => s) vfh None) as [e|values] eqn:E;
    [vm_compute in E; discriminate|].
  exists values. split; [done|].
  rewrite (hl7_requesting_physician_precedence (fun s => s) vfh None values E).
  reflexivity.
Defined.

Lemma hl7_insert_keeps (m : gmap string Hl7.pyv) i x k :
  is_Some (m !! k) -> is_Some (<[i := x]> m !! k).
Proof.
  intros H. destruct (decide (i = k)) as [->|Hne].
  - rewrite lookup_insert_eq. eauto.
  - by rewrite lookup_insert_ne.
Qed.

Lemma hl7_read_observations_keeps upper obx v k :
  is_Some (v !! k) -> is_Some (Hl7.read_observations upper obx v !! k).
Proof.
  destruct obx as [segs|]; [|done]. simpl.
  revert v. induction segs as [|seg segs IH]; intros v H; [done|].
  simpl. apply IH. unfold Hl7.read_observation.
  destruct (Hl7.contains (Hl7.lit "BODY WEIGHT") _),
    (Hl7.contains (Hl7.lit "BODY HEIGHT") _);
    auto using hl7_insert_keeps.
Qed.

(** X22. A successful [parse] removes nothing: every key the inherited
    parser returned and each of the ten defaults is a key of the result,
    the working entries such as [_sex] included.  It writes at most nine
    keys; under any other key the result holds what the inherited parser
    returned, or else the default. *)
Theorem hl7_parse_keeps_every_entry upper vfh obx values :
  Hl7.parse upper vfh obx = inr values ->
  (forall k, is_Some (vfh !! k) \/ is_Some (Hl7.defaults !! k) ->
             is_Some (values !! k)) /\
  (forall k,
     k ∉ ["PatientName"; "PatientSex"; "PregnancyStatus"; "PatientWeight";
          "PatientHeight"; "SpecificCharacterSet";
          "ScheduledProcedureStepStartDate";
          "ScheduledProcedureStepStartTime"; "RequestingPhysician"] ->
     values !! k = match vfh !! k with
                   | Some o => Some (Hl7.of_hl7 o)
                   | None => Hl7.defaults !! k
                   end).
Proof.
  intros H. apply hl7_parse_steps in H
    as (v1 & v2 & v3 & v6 & E1 & E2 & E3 & E6 & ->).
  apply hl7_set_patient_name_inv in E1 as (name & Hname & ->).
  set (v0 := (Hl7.of_hl7 <$> vfh) ∪ Hl7.defaults) in *.
  split.
  - intros k Hk.
    assert (is_Some (v0 !! k)) as H0.
    { unfold v0. rewrite hl7_base_lookup.
      destruct (vfh !! k); [eauto|]. destruct Hk as [[? ?]|?]; done. }
    assert (is_Some (v2 !! k)) as H2.
    { unfold Hl7.set_patient_sex in E2.
      destruct (_ !! "_sex"); [|discriminate].
      repeat (destruct (_ || _) || destruct (bool_decide _));
        injection E2 as <-; auto using hl7_insert_keeps. }
    assert (is_Some (v3 !! k)) as H3.
    { unfold Hl7.set_pregnancy_status in E3.
      destruct (Hl7.get v2 _) as [|status|]; try discriminate.
      - by injection E3 as <-.
      - destruct (Hl7.contains _ _); injection E3 as <-;
          auto using hl7_insert_keeps. }
    assert (is_Some (v6 !! k)) as H6.
    { pose proof (hl7_read_observations_keeps upper obx v3 k H3) as H4.
      assert (is_Some (Hl7.set_character_set
                         (Hl7.read_observations upper obx v3) !! k)) as H5.
      { unfold Hl7.set_character_set.
        destruct (_ || _); auto using hl7_insert_keeps. }
      unfold Hl7.set_start_date_time in E6.
      destruct (Hl7.get _ _) as [|dt|]; try discriminate.
      - by injection E6 as <-.
      - destruct (Nat.eqb (length dt) 12);
          [|destruct (Nat.eqb (length dt) 14)];
          injection E6 as <-; auto using hl7_insert_keeps. }
    unfold Hl7.set_requesting_physician.
    destruct (negb _); [by apply hl7_insert_keeps|].
    destruct (negb _); [by apply hl7_insert_keeps|done].
  - intros k Hk. rewrite !not_elem_of_cons in Hk.
    destruct Hk as (? & ? & ? & ? & ? & ? & ? & ? & ? & _).
    rewrite hl7_set_requesting_physician_frame by done.
    rewrite (hl7_set_start_date_time_frame _ _ _ E6) by done.
    rewrite hl7_set_character_set_frame by done.
    rewrite hl7_read_observations_frame by done.
    rewrite (hl7_set_pregnancy_status_frame _ _ _ E3) by done.
    rewrite (hl7_set_patient_sex_frame _ _ _ E2) by done.
    rewrite lookup_insert_ne by done. apply hl7_base_lookup.
Qed.

Lemma hl7_parse_keeps_every_entry_witness :
  let vfh : gmap string (option Hl7.pystr) :=
    <["PatientName" := Some (Hl7.lit "DOE^JANE")]>
      (<["_sex" := Some (Hl7.lit "F")]> ∅) in
  exists values,
    Hl7.parse (fun s => s) vfh None = inr values /\
    is_Some (values !! "_sex") /\
    values !! "ScheduledStationAETitle"
      = Some (Hl7.VStr (Hl7.lit "UNKNOWN")).
Proof.
  intros vfh.
  destruct (Hl7.parse (fun s => s) vfh None) as [e|values] eqn:E;
    [vm_compute in E; discriminate|].
  destruct (hl7_parse_keeps_every_entry (fun s => s) vfh None values E)
    as [H1 H2].
  exists values. split; [done|]. split.
  - apply H1. left. vm_compute. eauto.
  - rewrite H2; [reflexivity|].
    apply (bool_decide_unpack _). vm_compute. reflexivity.
Defined.

(** ** Observations *)

Lemma hl7_read_observation_weight upper v seg :
  Hl7.read_observation upper v seg !! "PatientWeight" =
  if Hl7.contains (Hl7.lit "BODY WEIGHT") (upper seg.1)
  then Some (Hl7.VStr seg.2) else v !! "PatientWeight".
Proof.
  unfold Hl7.read_observation.
  destruct (Hl7.contains (Hl7.lit "BODY WEIGHT") _),
    (Hl7.contains (Hl7.lit "BODY HEIGHT") _);
    rewrite ?lookup_insert_ne by done; rewrite ?lookup_insert_eq; done.
Qed.

Lemma hl7_read_observation_height upper v seg :
  Hl7.read_observation upper v seg !! "PatientHeight" =
  if Hl7.contains (Hl7.lit "BODY HEIGHT") (upper seg.1)
  then Some (Hl7.VStr seg.2) else v !! "PatientHeight".
Proof.
  unfold Hl7.read_observation.
  destruct (Hl7.contains (Hl7.lit "BODY WEIGHT") _),
    (Hl7.contains (Hl7.lit "BODY HEIGHT") _);
    rewrite ?lookup_insert_eq; rewrite ?lookup_insert_ne by done; done.
Qed.

Lemma hl7_foldl_weight upper post : forall v,
  Forall (fun q => Hl7.contains (Hl7.lit "BODY WEIGHT") (upper q.1) = false)
    post ->
  foldl (Hl7.read_observation upper) v post !! "PatientWeight"
    = v !! "PatientWeight".
Proof.
  induction post as [|q post IH]; intros v Hall; [done|].
  apply Forall_cons in Hall as [Hq Hpost]. simpl.
  rewrite IH by done. by rewrite hl7_read_observation_weight, Hq.
Qed.

Lemma hl7_foldl_height upper post : forall v,
  Forall (fun q => Hl7.contains (Hl7.lit "BODY HEIGHT") (upper q.1) = false)
    post ->
  foldl (Hl7.read_observation upper) v post !! "PatientHeight"
    = v !! "PatientHeight".
Proof.
  induction post as [|q post IH]; intros v Hall; [done|].
  apply Forall_cons in Hall as [Hq Hpost]. simpl.
  rewrite IH by done. by rewrite hl7_read_observation_height, Hq.
Qed.

(** X23. Among the OBX segments of a message, the last one whose
    observation name, in upper case, contains [BODY WEIGHT] gives the
    patient weight of the result, and the last one that contains
    [BODY HEIGHT] gives the patient height. *)
Theorem hl7_last_observation_wins upper vfh pre seg post values :
  Hl7.parse upper vfh (Some (pre ++ seg :: post)) = inr values ->
  (Hl7.contains (Hl7.lit "BODY WEIGHT") (upper seg.1) = true ->
   Forall (fun q =>
             Hl7.contains (Hl7.lit "BODY WEIGHT") (upper q.1) = false) post ->
   values !! "PatientWeight" = Some (Hl7.VStr seg.2)) /\
  (Hl7.contains (Hl7.lit "BODY HEIGHT") (upper seg.1) = true ->
   Forall (fun q =>
             Hl7.contains (Hl7.lit "BODY HEIGHT") (upper q.1) = false) post ->
   values !! "PatientHeight" = Some (Hl7.VStr seg.2)).
Proof.
  intros H. apply hl7_parse_steps in H
    as (v1 & v2 & v3 & v6 & E1 & E2 & E3 & E6 & ->).
  split; intros Hseg Hpost;
    rewrite hl7_set_requesting_physician_frame by done;
    rewrite (hl7_set_start_date_time_frame _ _ _ E6) by done;
    rewrite hl7_set_character_set_frame by done;
    simpl; rewrite foldl_app; simpl.
  - rewrite hl7_foldl_weight by done.
    by rewrite hl7_read_observation_weight, Hseg.
  - rewrite hl7_foldl_height by done.
    by rewrite hl7_read_observation_height, Hseg.
Qed.

Lemma hl7_last_observation_wins_witness :
  let vfh : gmap string (option Hl7.pystr) :=
    <["PatientName" := Some (Hl7.lit "DOE^JANE")]>
      (<["_sex" := Some (Hl7.lit "F")]> ∅) in
  let obx := [(Hl7.lit "^BODY WEIGHT", Hl7.lit "60")]
               ++ (Hl7.lit "^BODY WEIGHT", Hl7.lit "62")
                  :: [(Hl7.lit "^BODY HEIGHT", Hl7.lit "1.90")] in
  exists values,
    Hl7.parse (fun s => s) vfh (Some obx) = inr values /\
    values !! "PatientWeight" = Some (Hl7.VStr (Hl7.lit "62")).
Proof.
  intros vfh obx.
  destruct (Hl7.parse (fun s => s) vfh (Some obx)) as [e|values] eqn:E;
    [vm_compute in E; discriminate|].
  destruct (hl7_last_observation_wins (fun s => s) vfh
              [(Hl7.lit "^BODY WEIGHT", Hl7.lit "60")]
              (Hl7.lit "^BODY WEIGHT", Hl7.lit "62")
              [(Hl7.lit "^BODY HEIGHT", Hl7.lit "1.90")] values E)
    as [H _].
  exists values. split; [done|]. apply H; [reflexivity|].
  repeat constructor.
Defined.

(** ** Series after series, with their sizes *)




